(** * Voxel world store: chunks, sparse voxel octree and world manager

    A shallow embedding of the voxel storage core (VoxelCore.h, its
    implementation file, VoxelWorldManager.h and its implementation file)
    together with the properties checked against it.

    Conventions of the embedding.
    - [int32_t] and [uint8_t] values are integers in [Z]; the places where the
      source computes with them apply [wrap32] / [wrap8].  C++ [/] and [%]
      on [int32_t] are [Z.quot] and [Z.rem] (truncation towards zero).
    - [std::unordered_map] is a [gmap]; [std::array] and [std::vector] are
      lists; [std::unique_ptr] is an [option].
    - A [SVONode*] obtained from [findNode] is the path of child indices
      leading from the root to that node.
    - A [std::shared_ptr<WorldChunk>] is a handle into a store of chunks kept
      in the manager state, so the table of active chunks and the queued load
      tasks alias the same chunk object.
    - The worker thread is one atomic transition [chunkLoadingWorker_step]. *)

From stdpp Require Import gmap list strings.
From Stdlib Require Import ZArith QArith Lia.

Local Open Scope Z_scope.

(** ** Machine integers *)

Definition wrap32 (z : Z) : Z := (z + 2147483648) `mod` 4294967296 - 2147483648.
Definition wrap8 (z : Z) : Z := z `mod` 256.

#[global] Arguments wrap32 : simpl never.
#[global] Arguments wrap8 : simpl never.

(** ** Voxel *)

Module Voxel.
Record t := mk {
  materialID : Z;
  health : Z;
  flags : Z;
  structuralSupport : Z
}.

(** [Voxel()] *)
Definition default : t := mk 0 255 0 255.
(** [Voxel(uint8_t mat, uint8_t hp = 255)] *)
Definition make (mat hp : Z) : t := mk mat hp 0 255.

Definition isDestroyed (v : t) : bool := health v =? 0.

#[global] Instance eq_dec : EqDecision t.
Proof. solve_decision. Defined.

(** [enum Flags : uint8_t] *)
Inductive Flags :=
| IS_ON_FIRE
| IS_WET
| IS_STRESSED
| IS_UNSTABLE
| IS_CONDUCTIVE
| IS_FLAMMABLE
| IS_FLUID
| IS_GROUNDED.

#[global] Instance Flags_eq_dec : EqDecision Flags.
Proof. solve_decision. Defined.

(** The enumerator values [1 << k]. *)
Definition Flags_value (flag : Flags) : Z :=
  match flag with
  | IS_ON_FIRE => Z.shiftl 1 0
  | IS_WET => Z.shiftl 1 1
  | IS_STRESSED => Z.shiftl 1 2
  | IS_UNSTABLE => Z.shiftl 1 3
  | IS_CONDUCTIVE => Z.shiftl 1 4
  | IS_FLAMMABLE => Z.shiftl 1 5
  | IS_FLUID => Z.shiftl 1 6
  | IS_GROUNDED => Z.shiftl 1 7
  end.

Definition hasFlag (v : t) (flag : Flags) : bool :=
  negb (Z.land (flags v) (Flags_value flag) =? 0).

(** [flags |= flag]: computed in [int], stored back into the [uint8_t]. *)
Definition setFlag (v : t) (flag : Flags) : t :=
  mk (materialID v) (health v) (wrap8 (Z.lor (flags v) (Flags_value flag)))
     (structuralSupport v).

(** [flags &= ~flag]: [~flag] is the complement of the promoted [int]. *)
Definition clearFlag (v : t) (flag : Flags) : t :=
  mk (materialID v) (health v)
     (wrap8 (Z.land (flags v) (Z.lnot (Flags_value flag))))
     (structuralSupport v).
End Voxel.

(** ** Material and MaterialPalette *)

Module Material.
(** The [float] members are never computed with in the storage core; they
    are carried as the decimal literals the source writes. *)
Record t := mk {
  name : string;
  color : Q * Q * Q;
  roughness : Q;
  metallic : Q;
  emissive : Q;
  density : Q;
  hardness : Q;
  compressionStrength : Q;
  tensileStrength : Q;
  conductivity : Q;
  flashPoint : Q;
  meltingPoint : Q;
  isFlammable : bool;
  isLiquid : bool;
  isGas : bool;
  isTransparent : bool;
  isConductive : bool
}.

(** [Material(const std::string& n, glm::vec3 c, float h = 1.0f)] *)
Definition make (n : string) (c : Q * Q * Q) (h : Q) : t :=
  mk n c (5 # 10) 0 0 1000 h h (h * (5 # 10))%Q (1 # 10) 500 1000
     false false false false false.

Definition with_density (d : Q) (m : t) : t :=
  mk (name m) (color m) (roughness m) (metallic m) (emissive m) d (hardness m)
     (compressionStrength m) (tensileStrength m) (conductivity m)
     (flashPoint m) (meltingPoint m) (isFlammable m) (isLiquid m) (isGas m)
     (isTransparent m) (isConductive m).
Definition with_metallic (d : Q) (m : t) : t :=
  mk (name m) (color m) (roughness m) d (emissive m) (density m) (hardness m)
     (compressionStrength m) (tensileStrength m) (conductivity m)
     (flashPoint m) (meltingPoint m) (isFlammable m) (isLiquid m) (isGas m)
     (isTransparent m) (isConductive m).
Definition with_emissive (d : Q) (m : t) : t :=
  mk (name m) (color m) (roughness m) (metallic m) d (density m) (hardness m)
     (compressionStrength m) (tensileStrength m) (conductivity m)
     (flashPoint m) (meltingPoint m) (isFlammable m) (isLiquid m) (isGas m)
     (isTransparent m) (isConductive m).
Definition with_compressionStrength (d : Q) (m : t) : t :=
  mk (name m) (color m) (roughness m) (metallic m) (emissive m) (density m)
     (hardness m) d (tensileStrength m) (conductivity m)
     (flashPoint m) (meltingPoint m) (isFlammable m) (isLiquid m) (isGas m)
     (isTransparent m) (isConductive m).
Definition with_tensileStrength (d : Q) (m : t) : t :=
  mk (name m) (color m) (roughness m) (metallic m) (emissive m) (density m)
     (hardness m) (compressionStrength m) d (conductivity m)
     (flashPoint m) (meltingPoint m) (isFlammable m) (isLiquid m) (isGas m)
     (isTransparent m) (isConductive m).
Definition with_conductivity (d : Q) (m : t) : t :=
  mk (name m) (color m) (roughness m) (metallic m) (emissive m) (density m)
     (hardness m) (compressionStrength m) (tensileStrength m) d
     (flashPoint m) (meltingPoint m) (isFlammable m) (isLiquid m) (isGas m)
     (isTransparent m) (isConductive m).
Definition with_flashPoint (d : Q) (m : t) : t :=
  mk (name m) (color m) (roughness m) (metallic m) (emissive m) (density m)
     (hardness m) (compressionStrength m) (tensileStrength m)
     (conductivity m) d (meltingPoint m) (isFlammable m) (isLiquid m)
     (isGas m) (isTransparent m) (isConductive m).
Definition with_meltingPoint (d : Q) (m : t) : t :=
  mk (name m) (color m) (roughness m) (metallic m) (emissive m) (density m)
     (hardness m) (compressionStrength m) (tensileStrength m)
     (conductivity m) (flashPoint m) d (isFlammable m) (isLiquid m)
     (isGas m) (isTransparent m) (isConductive m).
Definition with_isFlammable (b : bool) (m : t) : t :=
  mk (name m) (color m) (roughness m) (metallic m) (emissive m) (density m)
     (hardness m) (compressionStrength m) (tensileStrength m)
     (conductivity m) (flashPoint m) (meltingPoint m) b (isLiquid m)
     (isGas m) (isTransparent m) (isConductive m).
Definition with_isLiquid (b : bool) (m : t) : t :=
  mk (name m) (color m) (roughness m) (metallic m) (emissive m) (density m)
     (hardness m) (compressionStrength m) (tensileStrength m)
     (conductivity m) (flashPoint m) (meltingPoint m) (isFlammable m) b
     (isGas m) (isTransparent m) (isConductive m).
Definition with_isGas (b : bool) (m : t) : t :=
  mk (name m) (color m) (roughness m) (metallic m) (emissive m) (density m)
     (hardness m) (compressionStrength m) (tensileStrength m)
     (conductivity m) (flashPoint m) (meltingPoint m) (isFlammable m)
     (isLiquid m) b (isTransparent m) (isConductive m).
Definition with_isTransparent (b : bool) (m : t) : t :=
  mk (name m) (color m) (roughness m) (metallic m) (emissive m) (density m)
     (hardness m) (compressionStrength m) (tensileStrength m)
     (conductivity m) (flashPoint m) (meltingPoint m) (isFlammable m)
     (isLiquid m) (isGas m) b (isConductive m).
Definition with_isConductive (b : bool) (m : t) : t :=
  mk (name m) (color m) (roughness m) (metallic m) (emissive m) (density m)
     (hardness m) (compressionStrength m) (tensileStrength m)
     (conductivity m) (flashPoint m) (meltingPoint m) (isFlammable m)
     (isLiquid m) (isGas m) (isTransparent m) b.
End Material.

Module MaterialPalette.
(** [enum StandardMaterials : uint8_t] *)
Definition AIR : Z := 0.
Definition STONE : Z := 1.
Definition DIRT : Z := 2.
Definition GRASS : Z := 3.
Definition SAND : Z := 4.
Definition WATER : Z := 5.
Definition WOOD : Z := 6.
Definition METAL : Z := 7.
Definition LAVA : Z := 8.
Definition ICE : Z := 9.
Definition SNOW : Z := 10.
Definition COAL : Z := 11.
Definition OIL : Z := 12.
Definition CUSTOM_START : Z := 32.

(** The palette is its [std::vector<Material> materials]. *)
Record t := mk { materials : list Material.t }.

Definition getMaterialCount (p : t) : Z := Z.of_nat (length (materials p)).

(** The two exceptions the palette throws. *)
Inductive error :=
| runtime_error (what : string)
| out_of_range (what : string).

Definition initializeStandardMaterials (p : t) : t :=
  (let air := Material.with_isTransparent true (Material.with_isGas true
               (Material.with_density (1225 # 1000) (Material.make "Air" (0, 0, 0) 0))) in
  let stone := Material.with_tensileStrength (4 # 10) (Material.with_compressionStrength (8 # 10)
               (Material.with_density 2700 (Material.make "Stone" (5 # 10, 5 # 10, 5 # 10) (8 # 10)))) in
  let dirt := Material.with_tensileStrength (1 # 10) (Material.with_compressionStrength (3 # 10)
               (Material.with_density 1500 (Material.make "Dirt" (4 # 10, 3 # 10, 2 # 10) (3 # 10)))) in
  let grass := Material.with_flashPoint 250 (Material.with_isFlammable true
               (Material.with_density 800 (Material.make "Grass" (2 # 10, 7 # 10, 2 # 10) (2 # 10)))) in
  let sand := Material.with_tensileStrength (5 # 100) (Material.with_compressionStrength (2 # 10)
               (Material.with_density 1600 (Material.make "Sand" (8 # 10, 7 # 10, 5 # 10) (4 # 10)))) in
  let water := Material.with_conductivity (6 # 10) (Material.with_isTransparent true (Material.with_isLiquid true
               (Material.with_density 1000 (Material.make "Water" (2 # 10, 4 # 10, 8 # 10) 0)))) in
  let wood := Material.with_tensileStrength (3 # 10) (Material.with_compressionStrength (5 # 10)
               (Material.with_flashPoint 300 (Material.with_isFlammable true
               (Material.with_density 600 (Material.make "Wood" (6 # 10, 4 # 10, 2 # 10) (5 # 10)))))) in
  let metal := Material.with_meltingPoint 1538 (Material.with_tensileStrength (8 # 10)
               (Material.with_compressionStrength (9 # 10) (Material.with_conductivity 80
               (Material.with_isConductive true (Material.with_metallic 1
               (Material.with_density 7850 (Material.make "Metal" (7 # 10, 7 # 10, 7 # 10) (9 # 10)))))))) in
  let lava := Material.with_flashPoint 0 (Material.with_isLiquid true (Material.with_emissive 1
               (Material.with_density 2800 (Material.make "Lava" (1, 3 # 10, 0) (7 # 10))))) in
  let ice := Material.with_tensileStrength (2 # 10) (Material.with_compressionStrength (4 # 10)
               (Material.with_meltingPoint 0 (Material.with_isTransparent true
               (Material.with_density 917 (Material.make "Ice" (8 # 10, 9 # 10, 1) (6 # 10)))))) in
  let snow := Material.with_tensileStrength (5 # 100) (Material.with_compressionStrength (1 # 10)
               (Material.with_meltingPoint 0
               (Material.with_density 300 (Material.make "Snow" (95 # 100, 95 # 100, 95 # 100) (1 # 10))))) in
  let coal := Material.with_compressionStrength (6 # 10) (Material.with_flashPoint 200
               (Material.with_isFlammable true
               (Material.with_density 1300 (Material.make "Coal" (1 # 10, 1 # 10, 1 # 10) (7 # 10))))) in
  let oil := Material.with_flashPoint 150 (Material.with_isFlammable true (Material.with_isLiquid true
               (Material.with_density 850 (Material.make "Oil" (2 # 10, 2 # 10, 1 # 10) (3 # 10))))) in
  mk (materials p ++ [air; stone; dirt; grass; sand; water; wood; metal;
                      lava; ice; snow; coal; oil]))%Q.

(** [MaterialPalette::MaterialPalette()] *)
Definition new : t := initializeStandardMaterials (mk []).

(** [addMaterial]: the palette after the call, and either the exception
    thrown or the id returned. *)
Definition addMaterial (p : t) (material : Material.t) : t * (error + Z) :=
  if 255 <=? Z.of_nat (length (materials p)) then
    (p, inl (runtime_error "Material palette is full (max 255 materials)"))
  else
    let p' := mk (materials p ++ [material]) in
    (p', inr (wrap8 (Z.of_nat (length (materials p')) - 1))).

(** A client adding the materials [ms] one after the other, ignoring the
    calls that throw: every palette a program can hold is
    [addMaterials new ms] for some [ms]. *)
Definition addMaterials (p : t) (ms : list Material.t) : t :=
  foldl (fun p m => (addMaterial p m).1) p ms.

Definition getMaterial (p : t) (id : Z) : error + Material.t :=
  if Z.of_nat (length (materials p)) <=? id then
    inl (out_of_range "Material ID out of range")
  else
    match materials p !! Z.to_nat id with
    | Some m => inr m
    | None => inl (out_of_range "Material ID out of range")
    end.
End MaterialPalette.

(** ** Positions *)

Module VoxelPos.
Record t := mk { x : Z; y : Z; z : Z }.

#[global] Instance eq_dec : EqDecision t.
Proof. solve_decision. Defined.

#[global] Instance countable : Countable t.
Proof.
  apply (inj_countable' (fun p => (x p, y p, z p))
                        (fun q => mk q.1.1 q.1.2 q.2)).
  by intros [].
Defined.

Definition add (a b : t) : t :=
  mk (wrap32 (x a + x b)) (wrap32 (y a + y b)) (wrap32 (z a + z b)).
Definition sub (a b : t) : t :=
  mk (wrap32 (x a - x b)) (wrap32 (y a - y b)) (wrap32 (z a - z b)).
End VoxelPos.

Module ChunkPos.
Record t := mk { x : Z; y : Z; z : Z }.

#[global] Instance eq_dec : EqDecision t.
Proof. solve_decision. Defined.

#[global] Instance countable : Countable t.
Proof.
  apply (inj_countable' (fun p => (x p, y p, z p))
                        (fun q => mk q.1.1 q.1.2 q.2)).
  by intros [].
Defined.

(** [ChunkPos(const VoxelPos& voxelPos, int32_t chunkSize)] *)
Definition of_voxel (voxelPos : VoxelPos.t) (chunkSize : Z) : t :=
  mk (wrap32 (VoxelPos.x voxelPos ÷ chunkSize))
     (wrap32 (VoxelPos.y voxelPos ÷ chunkSize))
     (wrap32 (VoxelPos.z voxelPos ÷ chunkSize)).

Definition toVoxelPos (c : t) (chunkSize : Z) : VoxelPos.t :=
  VoxelPos.mk (wrap32 (x c * chunkSize)) (wrap32 (y c * chunkSize))
              (wrap32 (z c * chunkSize)).
End ChunkPos.

(** ** WorldChunk *)

Module WorldChunk.
Definition CHUNK_SIZE : Z := 64.
Definition CHUNK_VOLUME : Z := CHUNK_SIZE * CHUNK_SIZE * CHUNK_SIZE.

(** [enum class State], in declaration order. *)
Inductive State :=
| UNLOADED
| LOADING
| ACTIVE
| DIRTY_MESH
| DIRTY_PHYSICS
| DIRTY_STRUCTURE.

#[global] Instance State_eq_dec : EqDecision State.
Proof. solve_decision. Defined.

(** The enumerator values the comparison operators of the enum use. *)
Definition State_value (s : State) : Z :=
  match s with
  | UNLOADED => 0
  | LOADING => 1
  | ACTIVE => 2
  | DIRTY_MESH => 3
  | DIRTY_PHYSICS => 4
  | DIRTY_STRUCTURE => 5
  end.

Definition State_ltb (a b : State) : bool := State_value a <? State_value b.
Definition State_geb (a b : State) : bool := State_value b <=? State_value a.

Record t := mk {
  position : ChunkPos.t;
  state : State;
  denseStorage : option (list Voxel.t);
  sparseStorage : option (gmap VoxelPos.t Voxel.t);
  isDense : bool
}.

Definition with_state (s : State) (c : t) : t :=
  mk (position c) s (denseStorage c) (sparseStorage c) (isDense c).
Definition with_denseStorage (d : option (list Voxel.t)) (c : t) : t :=
  mk (position c) (state c) d (sparseStorage c) (isDense c).
Definition with_sparseStorage (s : option (gmap VoxelPos.t Voxel.t)) (c : t) : t :=
  mk (position c) (state c) (denseStorage c) s (isDense c).

(** [WorldChunk::WorldChunk(const ChunkPos&)]: starts with sparse storage. *)
Definition new (position : ChunkPos.t) : t :=
  mk position UNLOADED None (Some ∅) false.

Definition getPosition (c : t) : ChunkPos.t := position c.
Definition getState (c : t) : State := state c.
Definition setState (c : t) (newState : State) : t := with_state newState c.

Definition isDirty (c : t) : bool := State_geb (state c) DIRTY_MESH.
Definition needsMeshUpdate (c : t) : bool :=
  bool_decide (state c = DIRTY_MESH) || bool_decide (state c = DIRTY_PHYSICS).
Definition needsPhysicsUpdate (c : t) : bool :=
  bool_decide (state c = DIRTY_PHYSICS) || bool_decide (state c = DIRTY_STRUCTURE).
Definition needsStructuralAnalysis (c : t) : bool :=
  bool_decide (state c = DIRTY_STRUCTURE).

Definition isValidLocalPos (localPos : VoxelPos.t) : bool :=
  (0 <=? VoxelPos.x localPos) && (VoxelPos.x localPos <? CHUNK_SIZE) &&
  (0 <=? VoxelPos.y localPos) && (VoxelPos.y localPos <? CHUNK_SIZE) &&
  (0 <=? VoxelPos.z localPos) && (VoxelPos.z localPos <? CHUNK_SIZE).

Definition getIndex (localPos : VoxelPos.t) : Z :=
  wrap32 (VoxelPos.x localPos + VoxelPos.y localPos * CHUNK_SIZE
          + VoxelPos.z localPos * CHUNK_SIZE * CHUNK_SIZE).

#[global] Arguments getIndex : simpl never.

Definition getLocalPos (index : Z) : VoxelPos.t :=
  let z := index ÷ (CHUNK_SIZE * CHUNK_SIZE) in
  let index := Z.rem index (CHUNK_SIZE * CHUNK_SIZE) in
  let y := index ÷ CHUNK_SIZE in
  let x := Z.rem index CHUNK_SIZE in
  VoxelPos.mk x y z.

(** [static const Voxel airVoxel(MaterialPalette::AIR, 0)] *)
Definition airVoxel : Voxel.t := Voxel.make MaterialPalette.AIR 0.

(** The read of slot [index] of the dense array; the array has [CHUNK_VOLUME] slots and the
    index of a valid local position is below that. *)
Definition dense_at (d : list Voxel.t) (index : Z) : Voxel.t :=
  default airVoxel (d !! Z.to_nat index).

Definition getVoxel (c : t) (localPos : VoxelPos.t) : Voxel.t :=
  if negb (isValidLocalPos localPos) then airVoxel
  else
    match isDense c, denseStorage c with
    | true, Some d => dense_at d (getIndex localPos)
    | _, _ =>
        match sparseStorage c with
        | Some s =>
            match s !! localPos with
            | Some v => v
            | None => airVoxel
            end
        | None => airVoxel
        end
    end.

Definition setVoxel (c : t) (localPos : VoxelPos.t) (voxel : Voxel.t) : t :=
  if negb (isValidLocalPos localPos) then c
  else
    let c1 :=
      match isDense c, denseStorage c with
      | true, Some d =>
          with_denseStorage (Some (<[Z.to_nat (getIndex localPos) := voxel]> d)) c
      | _, _ =>
          match sparseStorage c with
          | Some s =>
              if Voxel.materialID voxel =? MaterialPalette.AIR
              then with_sparseStorage (Some (delete localPos s)) c
              else with_sparseStorage (Some (<[localPos := voxel]> s)) c
          | None => c
          end
      end in
    if bool_decide (state c1 = ACTIVE) then with_state DIRTY_MESH c1 else c1.

Definition hasVoxel (c : t) (localPos : VoxelPos.t) : bool :=
  negb (Voxel.materialID (getVoxel c localPos) =? MaterialPalette.AIR).

(** The triple loop [for x, for y, for z] over a chunk, in iteration order. *)
Definition localPositions : list VoxelPos.t :=
  x ← seqZ 0 CHUNK_SIZE; y ← seqZ 0 CHUNK_SIZE; z ← seqZ 0 CHUNK_SIZE;
  [VoxelPos.mk x y z].

Definition compress (c : t) : t :=
  match isDense c, denseStorage c with
  | true, Some d =>
      let newSparseStorage :=
        foldl (fun (s : gmap VoxelPos.t Voxel.t) localPos =>
                 let voxel := dense_at d (getIndex localPos) in
                 if Voxel.materialID voxel =? MaterialPalette.AIR then s
                 else <[localPos := voxel]> s)
              ∅ localPositions in
      mk (position c) (state c) None (Some newSparseStorage) false
  | _, _ => c
  end.

Definition decompress (c : t) : t :=
  match isDense c, sparseStorage c with
  | false, Some s =>
      let newDenseStorage :=
        map_fold (fun pos voxel (d : list Voxel.t) =>
                    if isValidLocalPos pos
                    then <[Z.to_nat (getIndex pos) := voxel]> d
                    else d)
                 (replicate (Z.to_nat CHUNK_VOLUME) airVoxel) s in
      mk (position c) (state c) (Some newDenseStorage) None true
  | _, _ => c
  end.

Definition getNeighborPositions (localPos : VoxelPos.t) : list VoxelPos.t :=
  [ VoxelPos.mk (wrap32 (VoxelPos.x localPos + 1)) (VoxelPos.y localPos) (VoxelPos.z localPos);
    VoxelPos.mk (wrap32 (VoxelPos.x localPos - 1)) (VoxelPos.y localPos) (VoxelPos.z localPos);
    VoxelPos.mk (VoxelPos.x localPos) (wrap32 (VoxelPos.y localPos + 1)) (VoxelPos.z localPos);
    VoxelPos.mk (VoxelPos.x localPos) (wrap32 (VoxelPos.y localPos - 1)) (VoxelPos.z localPos);
    VoxelPos.mk (VoxelPos.x localPos) (VoxelPos.y localPos) (wrap32 (VoxelPos.z localPos + 1));
    VoxelPos.mk (VoxelPos.x localPos) (VoxelPos.y localPos) (wrap32 (VoxelPos.z localPos - 1)) ].

(** The triple loop [for dx, for dy, for dz] from -1 to 1, in iteration
    order. *)
Definition neighborOffsets : list (Z * Z * Z) :=
  dx ← seqZ (-1) 3; dy ← seqZ (-1) 3; dz ← seqZ (-1) 3; [(dx, dy, dz)].

(** The array starts as 26 default-constructed positions; the loop writes
    [neighbors[index++]] for every offset but the centre. *)
Definition getExtendedNeighborPositions (localPos : VoxelPos.t) : list VoxelPos.t :=
  (foldl (fun (st : list VoxelPos.t * Z) (d : Z * Z * Z) =>
            let '(neighbors, index) := st in
            let '(dx, dy, dz) := d in
            if (dx =? 0) && (dy =? 0) && (dz =? 0) then (neighbors, index)
            else (<[Z.to_nat index :=
                      VoxelPos.mk (wrap32 (VoxelPos.x localPos + dx))
                                  (wrap32 (VoxelPos.y localPos + dy))
                                  (wrap32 (VoxelPos.z localPos + dz))]> neighbors,
                  wrap32 (index + 1)))
         (replicate 26 (VoxelPos.mk 0 0 0), 0) neighborOffsets).1.
End WorldChunk.

(** ** Sparse voxel octree *)

Module SVONode.
Definition CHILDREN_COUNT : Z := 8.

(** The node owns its children through the array of pointers, so the type
    is nested; the induction principle used in the proofs is stated by
    hand further down. *)
#[local] Unset Elimination Schemes.
Inductive t := mk {
  childMask : Z;
  materialID : Z;
  level : Z;
  isLeaf : bool;
  isUniform : bool;
  children : option (list (option t))
}.
#[local] Set Elimination Schemes.

(** [SVONode(uint8_t lvl = 0)] *)
Definition new (lvl : Z) : t := mk 0 0 (wrap8 lvl) true true None.

Definition hasChild (n : t) (index : Z) : bool :=
  negb (Z.land (childMask n) (Z.shiftl 1 index) =? 0).

Definition setChild (n : t) (index : Z) : t :=
  mk (Z.lor (childMask n) (Z.shiftl 1 index)) (materialID n) (level n)
     (isLeaf n) (isUniform n) (children n).

Definition clearChild (n : t) (index : Z) : t :=
  mk (Z.land (childMask n) (Z.lnot (Z.shiftl 1 index) `mod` 4294967296))
     (materialID n) (level n) (isLeaf n) (isUniform n) (children n).

(** A freshly allocated child array: eight null pointers. *)
Definition emptyChildren : list (option t) :=
  replicate (Z.to_nat CHILDREN_COUNT) None.

(** The raw pointer held in slot [index] of the child array, null when
    the array is not allocated. *)
Definition slot (n : t) (index : Z) : option t :=
  match children n with
  | Some cs => mjoin (cs !! Z.to_nat index)
  | None => None
  end.

(** Write through a [SVONode*] obtained from slot [index] of [n]. *)
Definition setSlot (n : t) (index : Z) (c : t) : t :=
  match children n with
  | Some cs =>
      mk (childMask n) (materialID n) (level n) (isLeaf n) (isUniform n)
         (Some (<[Z.to_nat index := Some c]> cs))
  | None => n
  end.

Definition getChild (n : t) (index : Z) : option t :=
  if negb (hasChild n index) then None else slot n index.

Definition createChild (n : t) (index : Z) : t :=
  let cs := match children n with
            | Some cs => cs
            | None => emptyChildren
            end in
  setChild
    (mk (childMask n) (materialID n) (level n) (isLeaf n) (isUniform n)
        (Some (<[Z.to_nat index := Some (new (level n - 1))]> cs)))
    index.

(** Dereference of the node a path of child indices points to. *)
Fixpoint nodeAt (n : t) (path : list Z) : option t :=
  match path with
  | [] => Some n
  | i :: rest =>
      match slot n i with
      | Some c => nodeAt c rest
      | None => None
      end
  end.

(** In-place update of the node a path points to. *)
Fixpoint updateAt (f : t → t) (n : t) (path : list Z) : t :=
  match path with
  | [] => f n
  | i :: rest =>
      match slot n i with
      | Some c => setSlot n i (updateAt f c rest)
      | None => n
      end
  end.
End SVONode.

Module SparseVoxelOctree.
Record t := mk {
  root : option SVONode.t;
  maxDepth : Z;
  worldSize : Z
}.

Definition with_root (r : option SVONode.t) (o : t) : t :=
  mk r (maxDepth o) (worldSize o).

(** [SparseVoxelOctree::SparseVoxelOctree(int32_t maxDepth)] *)
Definition new (maxDepth : Z) : t :=
  mk (Some (SVONode.new maxDepth)) maxDepth (wrap32 (Z.shiftl 1 maxDepth)).

Definition getNodeSize (level : Z) : Z := wrap32 (Z.shiftl 1 level).

Definition getChildIndex (pos : VoxelPos.t) (level : Z) : Z :=
  let nodeSize := getNodeSize (level - 1) in
  let index := 0 in
  let index := if nodeSize <=? VoxelPos.x pos then Z.lor index 1 else index in
  let index := if nodeSize <=? VoxelPos.y pos then Z.lor index 2 else index in
  let index := if nodeSize <=? VoxelPos.z pos then Z.lor index 4 else index in
  index.

Definition getNodeOrigin (pos : VoxelPos.t) (level : Z) : VoxelPos.t :=
  let nodeSize := getNodeSize level in
  VoxelPos.mk (wrap32 ((VoxelPos.x pos ÷ nodeSize) * nodeSize))
              (wrap32 ((VoxelPos.y pos ÷ nodeSize) * nodeSize))
              (wrap32 ((VoxelPos.z pos ÷ nodeSize) * nodeSize)).

(** Leaf turned into an internal node with a fresh child array. *)
Definition toInternal (n : SVONode.t) : SVONode.t :=
  SVONode.mk (SVONode.childMask n) (SVONode.materialID n) (SVONode.level n)
             false (SVONode.isUniform n) (Some SVONode.emptyChildren).

(** The loop of [findNode], entered at [current] with loop variable
    [level] and [iters] iterations left.  The result is the subtree rooted
    at [current] after the path creation, and the node returned (a path
    relative to [current]), [None] for [nullptr].  The local [currentSize]
    of the source is written but never read, so it is left out. *)
Fixpoint findNode_loop (iters : nat) (level : Z) (current : SVONode.t)
         (pos : VoxelPos.t) (createPath : bool) {struct iters}
  : SVONode.t * option (list Z) :=
  match iters with
  | O => (current, Some [])
  | S iters' =>
      if SVONode.isLeaf current && negb (createPath && (1 <? level))
      then (current, Some [])
      else
        let current :=
          if SVONode.isLeaf current then toInternal current else current in
        let childIndex := getChildIndex pos level in
        if negb (SVONode.hasChild current childIndex) && negb createPath
        then (current, None)
        else
          let current :=
            if negb (SVONode.hasChild current childIndex)
            then SVONode.createChild current childIndex
            else current in
          match SVONode.getChild current childIndex with
          | None => (current, None)
          | Some child =>
              let '(child', r) :=
                findNode_loop iters' (level - 1) child pos createPath in
              (SVONode.setSlot current childIndex child',
               cons childIndex <$> r)
          end
  end.

Definition findNode (o : t) (pos : VoxelPos.t) (createPath : bool)
  : t * option (list Z) :=
  match root o with
  | None => (o, None)
  | Some r =>
      let '(r', p) :=
        findNode_loop (Z.to_nat (maxDepth o)) (maxDepth o) r pos createPath in
      (with_root (Some r') o, p)
  end.

(** The node a [findNode] result points to. *)
Definition deref (o : t) (path : list Z) : option SVONode.t :=
  r ← root o; SVONode.nodeAt r path.

Definition getVoxel (o : t) (pos : VoxelPos.t) : Voxel.t :=
  match findNode o pos false with
  | (_, None) => Voxel.make MaterialPalette.AIR 0
  | (o', Some path) =>
      match deref o' path with
      | Some node =>
          if SVONode.isLeaf node && SVONode.isUniform node
          then Voxel.make (SVONode.materialID node) 255
          else Voxel.make MaterialPalette.AIR 0
      | None => Voxel.make MaterialPalette.AIR 0
      end
  end.

Definition inWorld (o : t) (pos : VoxelPos.t) : bool :=
  negb ((VoxelPos.x pos <? 0) || (worldSize o <=? VoxelPos.x pos) ||
        (VoxelPos.y pos <? 0) || (worldSize o <=? VoxelPos.y pos) ||
        (VoxelPos.z pos <? 0) || (worldSize o <=? VoxelPos.z pos)).

(** The write [setVoxel] does through the node pointer. *)
Definition writeLeaf (voxel : Voxel.t) (node : SVONode.t) : SVONode.t :=
  if SVONode.isLeaf node
  then SVONode.mk (SVONode.childMask node) (Voxel.materialID voxel)
                  (SVONode.level node) (SVONode.isLeaf node) true
                  (SVONode.children node)
  else node.

Definition setVoxel (o : t) (pos : VoxelPos.t) (voxel : Voxel.t) : t :=
  if negb (inWorld o pos) then o
  else
    match findNode o pos true with
    | (o', None) => o'
    | (o', Some path) =>
        with_root
          (r ← root o'; Some (SVONode.updateAt (writeLeaf voxel) r path)) o'
    end.

Definition hasVoxel (o : t) (pos : VoxelPos.t) : bool :=
  negb (Voxel.materialID (getVoxel o pos) =? MaterialPalette.AIR).

Definition worldPosOf (chunkOrigin localPos : VoxelPos.t) : VoxelPos.t :=
  VoxelPos.mk (wrap32 (VoxelPos.x chunkOrigin + VoxelPos.x localPos))
              (wrap32 (VoxelPos.y chunkOrigin + VoxelPos.y localPos))
              (wrap32 (VoxelPos.z chunkOrigin + VoxelPos.z localPos)).

Definition loadChunkData (o : t) (chunkPos : ChunkPos.t) (chunk : WorldChunk.t)
  : WorldChunk.t :=
  let chunkOrigin := ChunkPos.toVoxelPos chunkPos WorldChunk.CHUNK_SIZE in
  foldl (fun chunk localPos =>
           let voxel := getVoxel o (worldPosOf chunkOrigin localPos) in
           if Voxel.materialID voxel =? MaterialPalette.AIR then chunk
           else WorldChunk.setVoxel chunk localPos voxel)
        chunk WorldChunk.localPositions.

Definition storeChunkData (o : t) (chunkPos : ChunkPos.t) (chunk : WorldChunk.t)
  : t :=
  let chunkOrigin := ChunkPos.toVoxelPos chunkPos WorldChunk.CHUNK_SIZE in
  foldl (fun o localPos =>
           setVoxel o (worldPosOf chunkOrigin localPos)
                      (WorldChunk.getVoxel chunk localPos))
        o WorldChunk.localPositions.

(** The loop of [canMergeNode] over the child slots, from index [i]. *)
Fixpoint canMergeNode_loop (node : SVONode.t) (i : Z) (n : nat)
         (firstMaterial : Z) (firstSet : bool) : bool :=
  match n with
  | O => firstSet
  | S n' =>
      if SVONode.hasChild node i then
        match SVONode.getChild node i with
        | None => false
        | Some child =>
            if negb (SVONode.isLeaf child) || negb (SVONode.isUniform child)
            then false
            else if negb firstSet
                 then canMergeNode_loop node (i + 1) n' (SVONode.materialID child) true
                 else if negb (SVONode.materialID child =? firstMaterial)
                      then false
                      else canMergeNode_loop node (i + 1) n' firstMaterial firstSet
        end
      else canMergeNode_loop node (i + 1) n' firstMaterial firstSet
  end.

Definition canMergeNode (node : SVONode.t) : bool :=
  if SVONode.isLeaf node || negb (bool_decide (is_Some (SVONode.children node)))
  then false
  else canMergeNode_loop node 0 (Z.to_nat SVONode.CHILDREN_COUNT) 255 false.

(** The material of the first present child, [AIR] when there is none. *)
Fixpoint firstChildMaterial (node : SVONode.t) (i : Z) (n : nat) : Z :=
  match n with
  | O => MaterialPalette.AIR
  | S n' =>
      match SVONode.getChild node i with
      | Some child => SVONode.materialID child
      | None => firstChildMaterial node (i + 1) n'
      end
  end.

(** The collapse at the end of [mergeUniformChildren]. *)
Definition collapse (node : SVONode.t) : SVONode.t :=
  if canMergeNode node then
    SVONode.mk 0 (firstChildMaterial node 0 (Z.to_nat SVONode.CHILDREN_COUNT))
               (SVONode.level node) true true None
  else node.

(** The loop of [mergeUniformChildren] over the child slots: the child in
    slot [i] is processed when [hasChild(i)] holds and the pointer is not
    null. *)
Definition mergeChildren (f : SVONode.t → SVONode.t) (node : SVONode.t)
  : Z → list (option SVONode.t) → list (option SVONode.t) :=
  fix go i cs :=
    match cs with
    | [] => []
    | c :: rest =>
        (if SVONode.hasChild node i
         then match c with
              | Some child => Some (f child)
              | None => None
              end
         else c) :: go (i + 1) rest
    end.

Fixpoint mergeUniformChildren (node : SVONode.t) : SVONode.t :=
  match node with
  | SVONode.mk mask mat lvl leaf uni ch =>
      if leaf then node
      else
        collapse
          (SVONode.mk mask mat lvl leaf uni
             match ch with
             | Some cs => Some (mergeChildren mergeUniformChildren node 0 cs)
             | None => None
             end)
  end.

Definition compress (o : t) : t :=
  match root o with
  | Some r => with_root (Some (mergeUniformChildren r)) o
  | None => o
  end.

Definition optimize (o : t) : t := compress o.

(** [getNodeCount]: the source returns a constant. *)
Definition getNodeCount (o : t) : Z := 1000.
End SparseVoxelOctree.

(** ** Chunk loading tasks and the world manager *)

Module ChunkLoadTask.
Inductive Priority := LOW | NORMAL | HIGH | URGENT.

#[global] Instance Priority_eq_dec : EqDecision Priority.
Proof. solve_decision. Defined.

Definition Priority_value (p : Priority) : Z :=
  match p with LOW => 0 | NORMAL => 1 | HIGH => 2 | URGENT => 3 end.

(** [chunk] is the shared handle; the [std::promise] member is only ever
    fulfilled, never read, and is left out. *)
Record t := mk {
  position : ChunkPos.t;
  chunk : nat;
  priority : Priority
}.
End ChunkLoadTask.

Module Statistics.
(** The integer counters of [VoxelWorldManager::Statistics]. *)
Record t := mk {
  activeChunks : Z;
  loadedChunks : Z;
  pendingLoads : Z
}.
End Statistics.

Module VoxelWorldManager.
(** [chunkStore] holds the [WorldChunk] objects the shared handles point
    to; [nextHandle] is the next unused handle. *)
Record t := mk {
  svoStorage : option SparseVoxelOctree.t;
  chunkStore : gmap nat WorldChunk.t;
  nextHandle : nat;
  activeChunks : gmap ChunkPos.t nat;
  loadingQueue : list ChunkLoadTask.t;
  stats : Statistics.t
}.

Definition with_chunkStore (cs : gmap nat WorldChunk.t) (m : t) : t :=
  mk (svoStorage m) cs (nextHandle m) (activeChunks m) (loadingQueue m) (stats m).

(** [VoxelWorldManager::VoxelWorldManager]: a 20-level octree, nothing
    resident, nothing queued. *)
Definition new : t :=
  mk (Some (SparseVoxelOctree.new 20)) ∅ 0%nat ∅ [] (Statistics.mk 0 0 0).

Definition getChunk (m : t) (pos : ChunkPos.t) : option nat :=
  activeChunks m !! pos.

(** The chunk object behind a handle. *)
Definition chunkAt (m : t) (h : nat) : option WorldChunk.t :=
  chunkStore m !! h.

(** World position to local chunk position. *)
Definition localPosOf (pos : VoxelPos.t) : VoxelPos.t :=
  VoxelPos.mk (Z.rem (VoxelPos.x pos) WorldChunk.CHUNK_SIZE)
              (Z.rem (VoxelPos.y pos) WorldChunk.CHUNK_SIZE)
              (Z.rem (VoxelPos.z pos) WorldChunk.CHUNK_SIZE).

Definition getVoxel (m : t) (pos : VoxelPos.t) : Voxel.t :=
  let chunkPos := ChunkPos.of_voxel pos WorldChunk.CHUNK_SIZE in
  match getChunk m chunkPos with
  | None => Voxel.make MaterialPalette.AIR 0
  | Some h =>
      match chunkAt m h with
      | Some chunk => WorldChunk.getVoxel chunk (localPosOf pos)
      | None => Voxel.make MaterialPalette.AIR 0
      end
  end.

(** [std::make_shared<WorldChunk>(pos)] *)
Definition createChunk (m : t) (pos : ChunkPos.t) : t * nat :=
  let h := nextHandle m in
  (mk (svoStorage m) (<[h := WorldChunk.new pos]> (chunkStore m)) (S h)
      (activeChunks m) (loadingQueue m) (stats m), h).

Definition loadChunk (m : t) (pos : ChunkPos.t)
           (priority : ChunkLoadTask.Priority) : t :=
  match activeChunks m !! pos with
  | Some _ => m
  | None =>
      let '(m1, chunk) := createChunk m pos in
      let task := ChunkLoadTask.mk pos chunk priority in
      mk (svoStorage m1) (chunkStore m1) (nextHandle m1)
         (<[pos := chunk]> (activeChunks m1))
         (loadingQueue m1 ++ [task])
         (Statistics.mk (Statistics.activeChunks (stats m1))
                        (Statistics.loadedChunks (stats m1))
                        (wrap32 (Statistics.pendingLoads (stats m1) + 1)))
  end.

Definition storeChunkToSVO (m : t) (pos : ChunkPos.t) (chunk : WorldChunk.t)
  : option SparseVoxelOctree.t :=
  match svoStorage m with
  | Some svo => Some (SparseVoxelOctree.storeChunkData svo pos chunk)
  | None => None
  end.

Definition loadChunkFromSVO (m : t) (pos : ChunkPos.t) (chunk : WorldChunk.t)
  : WorldChunk.t :=
  match svoStorage m with
  | Some svo => SparseVoxelOctree.loadChunkData svo pos chunk
  | None => chunk
  end.

Definition unloadChunk (m : t) (pos : ChunkPos.t) : t :=
  match activeChunks m !! pos with
  | Some h =>
      let svo' :=
        match chunkAt m h with
        | Some chunk => storeChunkToSVO m pos chunk
        | None => svoStorage m
        end in
      mk svo' (chunkStore m) (nextHandle m) (delete pos (activeChunks m))
         (loadingQueue m)
         (Statistics.mk (wrap32 (Statistics.activeChunks (stats m) - 1))
                        (Statistics.loadedChunks (stats m))
                        (Statistics.pendingLoads (stats m)))
  | None => m
  end.

Definition markChunkDirty (m : t) (pos : ChunkPos.t)
           (dirtyType : WorldChunk.State) : t :=
  match getChunk m pos with
  | Some h =>
      match chunkAt m h with
      | Some chunk =>
          if WorldChunk.State_ltb (WorldChunk.getState chunk) dirtyType
          then with_chunkStore
                 (<[h := WorldChunk.setState chunk dirtyType]> (chunkStore m)) m
          else m
      | None => m
      end
  | None => m
  end.

Definition clearDirtyFlag (m : t) (pos : ChunkPos.t) : t :=
  match getChunk m pos with
  | Some h =>
      match chunkAt m h with
      | Some chunk =>
          with_chunkStore
            (<[h := WorldChunk.setState chunk WorldChunk.ACTIVE]> (chunkStore m)) m
      | None => m
      end
  | None => m
  end.

Definition getDirtyChunks (m : t) (minDirtyLevel : WorldChunk.State)
  : list ChunkPos.t :=
  (map_to_list (activeChunks m)) ≫= (fun '(pos, h) =>
     match chunkAt m h with
     | Some chunk =>
         if WorldChunk.State_geb (WorldChunk.getState chunk) minDirtyLevel
         then [pos] else []
     | None => []
     end).

Definition setVoxel (m : t) (pos : VoxelPos.t) (voxel : Voxel.t) : t :=
  let chunkPos := ChunkPos.of_voxel pos WorldChunk.CHUNK_SIZE in
  let m1 :=
    match getChunk m chunkPos with
    | Some _ => m
    | None => loadChunk m chunkPos ChunkLoadTask.URGENT
    end in
  match getChunk m1 chunkPos with
  | None => m1
  | Some h =>
      match chunkAt m1 h with
      | Some chunk =>
          let m2 :=
            with_chunkStore
              (<[h := WorldChunk.setVoxel chunk (localPosOf pos) voxel]>
                 (chunkStore m1)) m1 in
          markChunkDirty m2 chunkPos WorldChunk.DIRTY_MESH
      | None => m1
      end
  end.

Definition hasVoxel (m : t) (pos : VoxelPos.t) : bool :=
  negb (Voxel.materialID (getVoxel m pos) =? MaterialPalette.AIR).

(** One iteration of [chunkLoadingWorker] with the queue not empty: take
    the front task, fill its chunk from the octree, mark it [ACTIVE].  With
    an empty queue the worker waits and the state is unchanged. *)
Definition chunkLoadingWorker_step (m : t) : t :=
  match loadingQueue m with
  | [] => m
  | task :: rest =>
      let stats' :=
        Statistics.mk (Statistics.activeChunks (stats m))
                      (Statistics.loadedChunks (stats m))
                      (wrap32 (Statistics.pendingLoads (stats m) - 1)) in
      let store' :=
        match chunkAt m (ChunkLoadTask.chunk task) with
        | Some chunk =>
            let loaded := loadChunkFromSVO m (ChunkLoadTask.position task) chunk in
            <[ChunkLoadTask.chunk task :=
                WorldChunk.setState loaded WorldChunk.ACTIVE]> (chunkStore m)
        | None => chunkStore m
        end in
      mk (svoStorage m) store' (nextHandle m) (activeChunks m) rest stats'
  end.

Definition setVoxelBulk (m : t) (voxels : list (VoxelPos.t * Voxel.t)) : t :=
  foldl (fun m pv => setVoxel m pv.1 pv.2) m voxels.

Definition getVoxelBulk (m : t) (positions : list VoxelPos.t) : list Voxel.t :=
  getVoxel m <$> positions.

(** The two functions below walk the table of active chunks with
    [for (const auto& [pos, chunk] : activeChunks)]; the order of an
    [std::unordered_map] is not specified, so the entries are given in the
    order [entries] the walk visits them. *)

(** The first loop of [garbageCollect]: the positions of the chunks in
    state [ACTIVE]. *)
Definition chunksToUnload (m : t) (entries : list (ChunkPos.t * nat))
  : list ChunkPos.t :=
  entries ≫= (fun '(pos, h) =>
     match chunkAt m h with
     | Some chunk =>
         if bool_decide (WorldChunk.getState chunk = WorldChunk.ACTIVE)
         then [pos] else []
     | None => []
     end).

Definition garbageCollect (m : t) (entries : list (ChunkPos.t * nat)) : t :=
  let unloadCount := (length (chunksToUnload m entries) / 2)%nat in
  foldl unloadChunk m (take unloadCount (chunksToUnload m entries)).

Definition compressInactiveChunks (m : t) (entries : list (ChunkPos.t * nat)) : t :=
  foldl (fun m (entry : ChunkPos.t * nat) =>
           match chunkAt m entry.2 with
           | Some chunk =>
               if bool_decide (WorldChunk.getState chunk = WorldChunk.ACTIVE)
               then with_chunkStore
                      (<[entry.2 := WorldChunk.compress chunk]> (chunkStore m)) m
               else m
           | None => m
           end) m entries.
End VoxelWorldManager.

(** * Notions used in the statements *)

(** ** Chunks *)

(** The representation invariant of a chunk: the storage its [isDense] flag
    selects is allocated, and a dense array has [CHUNK_VOLUME] slots.  The
    constructor establishes it and every member function keeps it. *)
Definition WorldChunk_wf (c : WorldChunk.t) : Prop :=
  match WorldChunk.isDense c, WorldChunk.denseStorage c with
  | true, Some d => Z.of_nat (length d) = WorldChunk.CHUNK_VOLUME
  | _, _ => is_Some (WorldChunk.sparseStorage c)
  end.

(** Whether reads and writes go to the dense array. *)
Definition WorldChunk_usesDense (c : WorldChunk.t) : bool :=
  WorldChunk.isDense c && bool_decide (is_Some (WorldChunk.denseStorage c)).

(** ** Octree *)

(** [findNode(pos, false)] read as a function of the subtree: the node the
    descent stops at. *)
Fixpoint lookupNode (iters : nat) (level : Z) (current : SVONode.t)
         (pos : VoxelPos.t) : option SVONode.t :=
  match iters with
  | O => Some current
  | S iters' =>
      if SVONode.isLeaf current then Some current
      else
        match SVONode.getChild current (SparseVoxelOctree.getChildIndex pos level) with
        | Some child => lookupNode iters' (level - 1) child pos
        | None => None
        end
  end.

(** What [getVoxel] makes of the node found. *)
Definition voxelOfNode (r : option SVONode.t) : Voxel.t :=
  match r with
  | Some node =>
      if SVONode.isLeaf node && SVONode.isUniform node
      then Voxel.make (SVONode.materialID node) 255
      else Voxel.make MaterialPalette.AIR 0
  | None => Voxel.make MaterialPalette.AIR 0
  end.

(** [findNode(pos, true)] followed by a write [f] through the pointer it
    returns, read as a function of the subtree. *)
Fixpoint writeNode (f : SVONode.t → SVONode.t) (iters : nat) (level : Z)
         (current : SVONode.t) (pos : VoxelPos.t) : SVONode.t :=
  match iters with
  | O => f current
  | S iters' =>
      if SVONode.isLeaf current && negb (1 <? level) then f current
      else
        let current :=
          if SVONode.isLeaf current
          then SparseVoxelOctree.toInternal current else current in
        let childIndex := SparseVoxelOctree.getChildIndex pos level in
        let current :=
          if negb (SVONode.hasChild current childIndex)
          then SVONode.createChild current childIndex else current in
        match SVONode.getChild current childIndex with
        | None => current
        | Some child =>
            SVONode.setSlot current childIndex
              (writeNode f iters' (level - 1) child pos)
        end
  end.

(** The shape of the subtrees that [setVoxel] builds from the constructor's
    root, for a node visited at loop level [L]: an internal node sits above
    level 1, has its child array, and every child its mask announces is
    there and has the shape; a leaf above level 1 is untouched (material 0,
    empty mask). *)
Fixpoint node_ok (L : nat) (n : SVONode.t) : Prop :=
  match L with
  | O => False
  | S L' =>
      if SVONode.isLeaf n
      then L' ≠ O → SVONode.materialID n = 0 ∧ SVONode.childMask n = 0
      else L' ≠ O ∧
           ∃ cs, SVONode.children n = Some cs ∧ length cs = 8%nat ∧
                 ∀ i, 0 ≤ i < 8 → SVONode.hasChild n i = true →
                      ∃ c, cs !! Z.to_nat i = Some (Some c) ∧ node_ok L' c
  end.

(** Two positions take the same child index at every level from [L] down
    to 2, so [findNode] leads both to the same node. *)
Fixpoint aliasb (L : nat) (p q : VoxelPos.t) : bool :=
  match L with
  | O => true
  | S L' =>
      match L' with
      | O => true
      | S _ =>
          (SparseVoxelOctree.getChildIndex p (Z.of_nat L)
           =? SparseVoxelOctree.getChildIndex q (Z.of_nat L))
          && aliasb L' p q
      end
  end.

(** The node [findNode] descends from at a level above 1, once the leaf
    conversion and the child creation are done. *)
Definition ensureChild (n : SVONode.t) (idx : Z) : SVONode.t :=
  let c1 := if SVONode.isLeaf n then SparseVoxelOctree.toInternal n else n in
  if negb (SVONode.hasChild c1 idx) then SVONode.createChild c1 idx else c1.

(** The material [getVoxel] reports for a lookup result. *)
Definition materialOf (r : option SVONode.t) : Z :=
  Voxel.materialID (voxelOfNode r).

(** The octree is one [setVoxel] builds from the constructor's root. *)
Definition svo_ok (o : SparseVoxelOctree.t) : Prop :=
  0 ≤ SparseVoxelOctree.maxDepth o ∧
  ∃ r, SparseVoxelOctree.root o = Some r ∧
       node_ok (Z.to_nat (SparseVoxelOctree.maxDepth o)) r.

(** [findNode] leads the two positions to the same node of the octree. *)
Definition alias (o : SparseVoxelOctree.t) (p q : VoxelPos.t) : bool :=
  aliasb (Z.to_nat (SparseVoxelOctree.maxDepth o)) p q.

(** The world position [storeChunkData] and [loadChunkData] pair with a
    local position of chunk [chunkPos]. *)
Definition chunkWorldPos (chunkPos : ChunkPos.t) (localPos : VoxelPos.t) : VoxelPos.t :=
  SparseVoxelOctree.worldPosOf
    (ChunkPos.toVoxelPos chunkPos WorldChunk.CHUNK_SIZE) localPos.

(** One iteration of the loop of [storeChunkData]. *)
Definition storeStep (chunkPos : ChunkPos.t) (chunk : WorldChunk.t)
           (o : SparseVoxelOctree.t) (localPos : VoxelPos.t) : SparseVoxelOctree.t :=
  SparseVoxelOctree.setVoxel o (chunkWorldPos chunkPos localPos)
    (WorldChunk.getVoxel chunk localPos).

(** A uniform leaf covers [pos]: [findNode] returns a leaf marked uniform. *)
Definition coveredByUniformLeaf (o : SparseVoxelOctree.t) (pos : VoxelPos.t) : bool :=
  match SparseVoxelOctree.findNode o pos false with
  | (o', Some path) =>
      match SparseVoxelOctree.deref o' path with
      | Some node => SVONode.isLeaf node && SVONode.isUniform node
      | None => false
      end
  | (_, None) => false
  end.

(** The nodes allocated in a subtree: the count a recursive traversal
    returns. *)
Fixpoint countNodes (n : SVONode.t) : nat :=
  match n with
  | SVONode.mk _ _ _ _ _ ch =>
      S match ch with
        | Some cs =>
            (fix go (cs : list (option SVONode.t)) : nat :=
               match cs with
               | [] => O
               | c :: rest =>
                   (match c with
                    | Some child => countNodes child
                    | None => O
                    end + go rest)%nat
               end) cs
        | None => O
        end
  end.

(** ** Manager *)

(** All queued loads are carried out: the worker takes one task per step
    until the queue is empty. *)
Definition completeLoads (m : VoxelWorldManager.t) : VoxelWorldManager.t :=
  Nat.iter (length (VoxelWorldManager.loadingQueue m))
           VoxelWorldManager.chunkLoadingWorker_step m.

(** The number of queued load tasks for a chunk position. *)
Definition queuedLoads (m : VoxelWorldManager.t) (pos : ChunkPos.t) : nat :=
  length (filter (λ task, ChunkLoadTask.position task = pos)
                 (VoxelWorldManager.loadingQueue m)).

(** Every queued load task is for a resident chunk position, and no two
    are for the same position. *)
Definition one_load_per_chunk (m : VoxelWorldManager.t) : Prop :=
  NoDup (ChunkLoadTask.position <$> VoxelWorldManager.loadingQueue m) ∧
  Forall (λ task, is_Some (VoxelWorldManager.activeChunks m
                             !! ChunkLoadTask.position task))
         (VoxelWorldManager.loadingQueue m).

(** ** The eviction scenario *)

Module Eviction.
Definition pos : VoxelPos.t := VoxelPos.mk 5 5 5.
Definition chunkPos : ChunkPos.t := ChunkPos.mk 0 0 0.
Definition stone : Voxel.t := Voxel.make MaterialPalette.STONE 255.

(** [setVoxel({5,5,5}, Voxel(STONE,255))] on a fresh manager. *)
Definition written : VoxelWorldManager.t :=
  VoxelWorldManager.setVoxel VoxelWorldManager.new pos stone.

(** [unloadChunk(ChunkPos(0,0,0))], then [loadChunk(ChunkPos(0,0,0))]. *)
Definition reloading (m : VoxelWorldManager.t) : VoxelWorldManager.t :=
  VoxelWorldManager.loadChunk (VoxelWorldManager.unloadChunk m chunkPos)
    chunkPos ChunkLoadTask.NORMAL.

(** The chunk as it is when it is evicted. *)
Definition evicted : WorldChunk.t :=
  WorldChunk.mk chunkPos WorldChunk.DIRTY_MESH None (Some {[pos := stone]}) false.

(** The local position written last among those that reach the octree
    node of [pos], and its place in the iteration order. *)
Definition lastAlias : VoxelPos.t := VoxelPos.mk 7 7 7.
Definition lastAliasIndex : nat := Z.to_nat (7 * 4096 + 7 * 64 + 7).

(** A local position with a coordinate from 8 on. *)
Definition farb (lp : VoxelPos.t) : bool :=
  WorldChunk.isValidLocalPos lp &&
  ((8 <=? VoxelPos.x lp) || (8 <=? VoxelPos.y lp) || (8 <=? VoxelPos.z lp)).
End Eviction.

(** ** The merge scenario *)

Module Merge.
(** One position in each octant of a 2-level octree. *)
Definition octants : list VoxelPos.t :=
  x ← [0; 2]; y ← [0; 2]; z ← [0; 2]; [VoxelPos.mk x y z].

(** The octree after stone is written at each of them: the root has its
    eight children, all uniform leaves of stone. *)
Definition filled : SparseVoxelOctree.t :=
  foldl (λ o p, SparseVoxelOctree.setVoxel o p
                  (Voxel.make MaterialPalette.STONE 255))
        (SparseVoxelOctree.new 2) octants.

Definition stoneLeaf (lvl : Z) : SVONode.t :=
  SVONode.mk 0 MaterialPalette.STONE lvl true true None.
End Merge.

(** * Properties *)

(** ** MaterialPalette *)

Section palette.
Import MaterialPalette.

Lemma getMaterialCount_new : getMaterialCount new = 13.
Proof. reflexivity. Qed.

Lemma addMaterial_full p material :
  255 ≤ getMaterialCount p →
  addMaterial p material =
    (p, inl (runtime_error "Material palette is full (max 255 materials)")).
Proof.
  unfold addMaterial, getMaterialCount. intros H.
  destruct (Z.leb_spec 255 (Z.of_nat (length (materials p)))); [done | lia].
Qed.

Lemma addMaterial_room p material :
  getMaterialCount p < 255 →
  addMaterial p material =
    (mk (materials p ++ [material]), inr (getMaterialCount p)).
Proof.
  unfold addMaterial, getMaterialCount. intros H.
  destruct (Z.leb_spec 255 (Z.of_nat (length (materials p)))); [lia |].
  f_equal. f_equal. simpl. rewrite length_app. simpl.
  unfold wrap8. rewrite Z.mod_small; lia.
Qed.

Lemma addMaterial_count_bound p material :
  getMaterialCount p ≤ 255 → getMaterialCount (addMaterial p material).1 ≤ 255.
Proof.
  intros H. destruct (decide (getMaterialCount p = 255)) as [E | E].
  - rewrite addMaterial_full by lia. simpl. lia.
  - rewrite addMaterial_room by lia. simpl.
    unfold getMaterialCount in *. simpl. rewrite length_app. simpl. lia.
Qed.

Lemma addMaterials_snoc p ms material :
  addMaterials p (ms ++ [material]) = (addMaterial (addMaterials p ms) material).1.
Proof. unfold addMaterials. by rewrite foldl_app. Qed.

(** The palette never holds more than 255 materials. *)
Lemma addMaterials_count_bound ms : getMaterialCount (addMaterials new ms) ≤ 255.
Proof.
  induction ms as [| material ms IH] using rev_ind.
  - change (addMaterials new []) with new. rewrite getMaterialCount_new. lia.
  - rewrite addMaterials_snoc. by apply addMaterial_count_bound.
Qed.
End palette.

(** ** WorldChunk *)

Section chunk.
Import WorldChunk.

Lemma isValidLocalPos_spec p :
  isValidLocalPos p = true ↔
  0 ≤ VoxelPos.x p < CHUNK_SIZE ∧ 0 ≤ VoxelPos.y p < CHUNK_SIZE ∧
  0 ≤ VoxelPos.z p < CHUNK_SIZE.
Proof.
  unfold isValidLocalPos. rewrite !andb_true_iff.
  rewrite !Z.leb_le, !Z.ltb_lt. tauto.
Qed.

Lemma getIndex_valid p :
  isValidLocalPos p = true →
  getIndex p = VoxelPos.x p + VoxelPos.y p * 64 + VoxelPos.z p * 4096 ∧
  0 ≤ getIndex p < CHUNK_VOLUME.
Proof.
  rewrite isValidLocalPos_spec. unfold getIndex, CHUNK_VOLUME, CHUNK_SIZE, wrap32.
  intros (? & ? & ?). rewrite Z.mod_small by lia. lia.
Qed.

Lemma getIndex_inj p q :
  isValidLocalPos p = true → isValidLocalPos q = true →
  getIndex p = getIndex q → p = q.
Proof.
  intros Hp Hq.
  destruct (getIndex_valid p Hp) as [-> _], (getIndex_valid q Hq) as [-> _].
  apply isValidLocalPos_spec in Hp, Hq. unfold CHUNK_SIZE in *.
  destruct p as [px py pz], q as [qx qy qz]; simpl in *.
  intros H. f_equal; lia.
Qed.

Local Abbreviation wf := WorldChunk_wf.
Local Abbreviation usesDense := WorldChunk_usesDense.

(** Closes the cases where a hypothesis reads a null pointer as set. *)
Local Ltac absurd_storage :=
  solve [ done
        | exfalso; eauto
        | match goal with
          | H : is_Some None |- _ => by destruct H
          | H : ¬ is_Some (Some _) |- _ => by destruct H; eauto
          end ].

Lemma wf_new position : wf (new position).
Proof. unfold WorldChunk_wf, new. simpl. eauto. Qed.

Lemma wf_setVoxel c p v : wf c → wf (setVoxel c p v).
Proof.
  unfold WorldChunk_wf, setVoxel. intros H.
  destruct (isValidLocalPos p); simpl; [| done].
  destruct c as [cp st [d |] [s |] [|]]; simpl in *;
    repeat case_bool_decide; repeat case_match; simplify_eq/=;
    rewrite ?length_insert; eauto; by destruct H.
Qed.

Lemma usesDense_setVoxel c p v : usesDense (setVoxel c p v) = usesDense c.
Proof.
  unfold WorldChunk_usesDense, setVoxel.
  destruct (isValidLocalPos p); simpl; [| done].
  destruct c as [cp st [d |] [s |] [|]]; simpl;
    repeat case_bool_decide; repeat case_match; simpl in *;
    absurd_storage.
Qed.

Lemma getVoxel_with_state s c q : getVoxel (with_state s c) q = getVoxel c q.
Proof. done. Qed.

(** The dirty mark at the end of [setVoxel] does not touch the storage. *)
Lemma getVoxel_mark c q :
  getVoxel (if bool_decide (state c = ACTIVE) then with_state DIRTY_MESH c else c) q
  = getVoxel c q.
Proof. by case_bool_decide. Qed.

(** Reading back the position just written. *)
Lemma getVoxel_setVoxel_eq c p v :
  wf c → isValidLocalPos p = true →
  getVoxel (setVoxel c p v) p =
    if usesDense c || negb (Voxel.materialID v =? MaterialPalette.AIR)
    then v else airVoxel.
Proof.
  intros Hwf Hp. destruct (getIndex_valid p Hp) as [_ Hidx].
  unfold setVoxel. rewrite Hp. cbn [negb]. rewrite getVoxel_mark.
  unfold getVoxel. rewrite Hp. cbn [negb].
  destruct c as [cp st dd ss dn]. unfold WorldChunk_wf, WorldChunk_usesDense in *.
  cbn [isDense denseStorage sparseStorage] in *.
  destruct dn, dd as [d |]; cbn [andb orb].
  - rewrite bool_decide_eq_true_2 by eauto. cbn.
    unfold dense_at. rewrite list_lookup_insert_eq by lia. done.
  - rewrite bool_decide_eq_false_2 by (by intros []). cbn [orb].
    destruct Hwf as [s ->].
    destruct (Voxel.materialID v =? MaterialPalette.AIR); cbn.
    + by rewrite lookup_delete_eq.
    + by rewrite lookup_insert_eq.
  - destruct Hwf as [s ->].
    destruct (Voxel.materialID v =? MaterialPalette.AIR); cbn.
    + by rewrite lookup_delete_eq.
    + by rewrite lookup_insert_eq.
  - destruct Hwf as [s ->].
    destruct (Voxel.materialID v =? MaterialPalette.AIR); cbn.
    + by rewrite lookup_delete_eq.
    + by rewrite lookup_insert_eq.
Qed.

(** A write leaves every other position as it was. *)
Lemma getVoxel_setVoxel_ne c p q v :
  p ≠ q → getVoxel (setVoxel c p v) q = getVoxel c q.
Proof.
  intros Hne. unfold setVoxel.
  destruct (isValidLocalPos p) eqn:Hp; cbn [negb]; [| done].
  rewrite getVoxel_mark. unfold getVoxel.
  destruct (isValidLocalPos q) eqn:Hq; cbn [negb]; [| done].
  assert (Z.to_nat (getIndex p) ≠ Z.to_nat (getIndex q)) as Hidx.
  { intros E. apply Hne, getIndex_inj; try done.
    destruct (getIndex_valid p Hp) as [_ ?], (getIndex_valid q Hq) as [_ ?]. lia. }
  destruct c as [cp st dd ss dn]. cbn [isDense denseStorage sparseStorage].
  destruct dn, dd as [d |], ss as [s |]; cbn; try done;
    unfold dense_at; rewrite ?list_lookup_insert_ne by done; try done;
    destruct (Voxel.materialID v =? MaterialPalette.AIR); cbn;
    by rewrite ?lookup_delete_ne, ?lookup_insert_ne by done.
Qed.

Lemma setVoxel_invalid c p v : isValidLocalPos p = false → setVoxel c p v = c.
Proof. unfold setVoxel. by intros ->. Qed.

(** The enumerators are strictly increasing in declaration order. *)
Lemma State_order :
  State_ltb UNLOADED LOADING = true ∧ State_ltb LOADING ACTIVE = true ∧
  State_ltb ACTIVE DIRTY_MESH = true ∧ State_ltb DIRTY_MESH DIRTY_PHYSICS = true ∧
  State_ltb DIRTY_PHYSICS DIRTY_STRUCTURE = true.
Proof. by repeat split. Qed.

Lemma State_value_inj a b : State_value a = State_value b → a = b.
Proof. by destruct a, b. Qed.

Lemma State_ltb_total a b : State_ltb a b = true ∨ a = b ∨ State_ltb b a = true.
Proof. destruct a, b; unfold State_ltb; simpl; auto. Qed.

(** A write at a valid position while [ACTIVE] leaves the chunk in
    [DIRTY_MESH]. *)
Lemma setVoxel_active_dirty c p v :
  isValidLocalPos p = true → state c = ACTIVE →
  state (setVoxel c p v) = DIRTY_MESH.
Proof.
  intros Hp Hs. unfold setVoxel. rewrite Hp. simpl.
  destruct c as [cp st [d |] [s |] [|]]; simpl in *; subst st;
    repeat case_match; simpl in *; try done;
    repeat case_bool_decide; simpl in *; done.
Qed.

Lemma needsPhysicsUpdate_order c :
  needsPhysicsUpdate c = State_geb (state c) DIRTY_PHYSICS.
Proof. unfold needsPhysicsUpdate. by destruct (state c). Qed.

Lemma needsStructuralAnalysis_order c :
  needsStructuralAnalysis c = State_geb (state c) DIRTY_STRUCTURE.
Proof. unfold needsStructuralAnalysis. by destruct (state c). Qed.

Lemma isDirty_order c : isDirty c = State_geb (state c) DIRTY_MESH.
Proof. done. Qed.
End chunk.

(** ** Octree nodes *)

Section svo_node.
Import SVONode.

Lemma land_bit m j :
  0 ≤ j → (Z.land m (Z.shiftl 1 j) =? 0) = negb (Z.testbit m j).
Proof.
  intros Hj. rewrite Z.shiftl_1_l.
  destruct (Z.testbit m j) eqn:E; simpl.
  - apply Z.eqb_neq. intros H.
    assert (Z.testbit (Z.land m (2 ^ j)) j = true) as H'.
    { by rewrite Z.land_spec, E, Z.pow2_bits_true. }
    rewrite H in H'. by rewrite Z.bits_0 in H'.
  - apply Z.eqb_eq, Z.bits_inj'. intros k Hk.
    rewrite Z.land_spec, Z.bits_0, Z.pow2_bits_eqb by done.
    destruct (Z.eqb_spec j k) as [-> |]; [by rewrite E | apply andb_false_r].
Qed.

Lemma hasChild_testbit n j : 0 ≤ j → hasChild n j = Z.testbit (childMask n) j.
Proof. intros Hj. unfold hasChild. rewrite land_bit by done. apply negb_involutive. Qed.

Lemma hasChild_setChild n i j :
  0 ≤ i → 0 ≤ j →
  hasChild (setChild n i) j = bool_decide (i = j) || hasChild n j.
Proof.
  intros Hi Hj. rewrite !hasChild_testbit by done. simpl.
  rewrite Z.lor_spec, Z.shiftl_1_l, Z.pow2_bits_eqb by done.
  rewrite orb_comm. f_equal.
  case_bool_decide; [by apply Z.eqb_eq | by apply Z.eqb_neq].
Qed.

Lemma hasChild_mask0 n j : childMask n = 0 → hasChild n j = false.
Proof. unfold hasChild. intros ->. by rewrite Z.land_0_l. Qed.

Lemma slot_Some n i c :
  slot n i = Some c →
  ∃ cs, children n = Some cs ∧ cs !! Z.to_nat i = Some (Some c).
Proof.
  unfold slot. destruct (children n) as [cs |]; [| done].
  intros H. exists cs. split; [done |].
  destruct (cs !! Z.to_nat i) as [[c' |] |]; simpl in H; by simplify_eq.
Qed.

Lemma slot_lookup n cs i :
  children n = Some cs → slot n i = mjoin (cs !! Z.to_nat i).
Proof. unfold slot. by intros ->. Qed.

Lemma setSlot_id n i c : slot n i = Some c → setSlot n i c = n.
Proof.
  intros (cs & Hcs & Hi)%slot_Some. unfold setSlot. rewrite Hcs.
  rewrite list_insert_id by done. destruct n; simpl in *. by subst.
Qed.

Lemma setSlot_setSlot n i a b : setSlot (setSlot n i a) i b = setSlot n i b.
Proof.
  unfold setSlot. destruct (children n) as [cs |] eqn:E; simpl; [| by rewrite E].
  by rewrite list_insert_insert_eq.
Qed.

Lemma slot_setSlot_eq n i c c' : slot n i = Some c → slot (setSlot n i c') i = Some c'.
Proof.
  intros (cs & Hcs & Hi)%slot_Some. unfold setSlot, slot. rewrite Hcs. simpl.
  rewrite list_lookup_insert_eq; [done |]. by eapply lookup_lt_Some.
Qed.

Lemma slot_setSlot_ne n i j c :
  Z.to_nat i ≠ Z.to_nat j → slot (setSlot n i c) j = slot n j.
Proof.
  intros Hne. unfold setSlot, slot. destruct (children n) as [cs |] eqn:E; simpl;
    [| by rewrite E].
  by rewrite list_lookup_insert_ne.
Qed.

Lemma hasChild_setSlot n i c j : hasChild (setSlot n i c) j = hasChild n j.
Proof. unfold setSlot, hasChild. by destruct (children n). Qed.

Lemma isLeaf_setSlot n i c : isLeaf (setSlot n i c) = isLeaf n.
Proof. unfold setSlot. by destruct (children n). Qed.

Lemma getChild_setSlot_ne n i j c :
  Z.to_nat i ≠ Z.to_nat j → getChild (setSlot n i c) j = getChild n j.
Proof.
  intros Hne. unfold getChild. by rewrite hasChild_setSlot, slot_setSlot_ne.
Qed.

Lemma getChild_setSlot_eq n i c c' :
  getChild n i = Some c → getChild (setSlot n i c') i = Some c'.
Proof.
  unfold getChild. rewrite hasChild_setSlot.
  destruct (hasChild n i); simpl; [| done]. apply slot_setSlot_eq.
Qed.

Lemma getChild_Some n i c :
  getChild n i = Some c → hasChild n i = true ∧ slot n i = Some c.
Proof. unfold getChild. by destruct (hasChild n i). Qed.

Lemma nodeAt_cons n i path c :
  slot n i = Some c → nodeAt n (i :: path) = nodeAt c path.
Proof. simpl. by intros ->. Qed.

Lemma updateAt_cons f n i path c :
  slot n i = Some c → updateAt f n (i :: path) = setSlot n i (updateAt f c path).
Proof. simpl. by intros ->. Qed.
End svo_node.

(** ** Octree: the pointer code and its functional reading *)

Section svo_read_write.
Import SVONode SparseVoxelOctree.

Lemma getChildIndex_range pos level : 0 ≤ getChildIndex pos level < 8.
Proof.
  unfold getChildIndex.
  repeat match goal with |- context [if ?b then _ else _] => destruct b end;
    cbv [Z.lor Pos.lor]; lia.
Qed.

(** Without path creation [findNode] changes nothing and returns the node
    [lookupNode] computes. *)
Lemma findNode_loop_read iters : ∀ level current pos,
  (findNode_loop iters level current pos false).1 = current ∧
  ((findNode_loop iters level current pos false).2 ≫= nodeAt current)
  = lookupNode iters level current pos.
Proof.
  induction iters as [| iters IH]; intros level current pos; [done |].
  cbn [findNode_loop lookupNode].
  destruct (isLeaf current) eqn:Hleaf; cbn [andb negb]; [done |].
  destruct (hasChild current (getChildIndex pos level)) eqn:Hhas;
    cbn [andb negb]; unfold getChild; rewrite Hhas; cbn [negb]; [| done].
  destruct (slot current (getChildIndex pos level)) as [child |] eqn:Hslot;
    [| done].
  destruct (IH (level - 1) child pos) as [IH1 IH2].
  destruct (findNode_loop iters (level - 1) child pos false) as [child' r].
  simpl in IH1, IH2. subst child'. cbn [fst snd].
  split; [by apply setSlot_id |].
  destruct r as [path |]; [| done]. simpl. rewrite Hslot. exact IH2.
Qed.

(** With path creation, the write through the returned pointer is
    [writeNode]. *)
Lemma findNode_loop_write f iters : ∀ level current pos,
  match (findNode_loop iters level current pos true).2 with
  | Some path => updateAt f (findNode_loop iters level current pos true).1 path
  | None => (findNode_loop iters level current pos true).1
  end = writeNode f iters level current pos.
Proof.
  induction iters as [| iters IH]; intros level current pos; [done |].
  cbn [findNode_loop writeNode]. cbn [andb negb].
  destruct (isLeaf current && negb (1 <? level)); [done |].
  rewrite andb_false_r.
  set (c1 := if isLeaf current then toInternal current else current).
  set (idx := getChildIndex pos level).
  set (c2 := if negb (hasChild c1 idx) then createChild c1 idx else c1).
  destruct (getChild c2 idx) as [child |] eqn:Hchild; [| done].
  specialize (IH (level - 1) child pos).
  destruct (findNode_loop iters (level - 1) child pos true) as [child' r].
  cbn [fst snd] in *.
  apply getChild_Some in Hchild as [_ Hslot].
  destruct r as [path |]; simpl.
  - rewrite (slot_setSlot_eq _ _ _ _ Hslot), setSlot_setSlot. by rewrite IH.
  - by rewrite IH.
Qed.

Lemma getVoxel_lookup o pos :
  getVoxel o pos =
  voxelOfNode (root o ≫= λ r, lookupNode (Z.to_nat (maxDepth o)) (maxDepth o) r pos).
Proof.
  unfold getVoxel, findNode, deref.
  destruct o as [[r |] depth size]; simpl; [| done].
  destruct (findNode_loop_read (Z.to_nat depth) depth r pos) as [H1 H2].
  destruct (findNode_loop (Z.to_nat depth) depth r pos false) as [r' p].
  simpl in *. subst r'. rewrite <- H2. by destruct p.
Qed.

Lemma setVoxel_writeNode o pos voxel :
  setVoxel o pos voxel =
  if negb (inWorld o pos) then o
  else with_root
         (fmap (M := option)
            (λ r, writeNode (writeLeaf voxel) (Z.to_nat (maxDepth o))
                    (maxDepth o) r pos)
            (root o)) o.
Proof.
  unfold setVoxel, findNode. destruct (inWorld o pos); cbn [negb]; [| done].
  destruct o as [[r |] depth size]; simpl; [| done].
  pose proof (findNode_loop_write (writeLeaf voxel) (Z.to_nat depth) depth r pos) as H.
  destruct (findNode_loop (Z.to_nat depth) depth r pos true) as [r' [path |]];
    simpl in *; by rewrite <- H.
Qed.

(** The octree keeps the material of a voxel and nothing else of it. *)
Lemma writeLeaf_material voxel node :
  writeLeaf voxel node = writeLeaf (Voxel.make (Voxel.materialID voxel) 255) node.
Proof. done. Qed.
End svo_read_write.

(** ** Octree: what a write does to the reads *)

Section svo_write_read.
Import SVONode SparseVoxelOctree.

Lemma materialOf_leaf0 n :
  isLeaf n = true → materialID n = 0 → materialOf (Some n) = 0.
Proof.
  unfold materialOf, voxelOfNode. intros -> ->. by destruct (isUniform n).
Qed.

Lemma node_ok_S L n :
  node_ok (S L) n =
  if isLeaf n
  then L ≠ O → materialID n = 0 ∧ childMask n = 0
  else L ≠ O ∧
       ∃ cs, children n = Some cs ∧ length cs = 8%nat ∧
             ∀ i, 0 ≤ i < 8 → hasChild n i = true →
                  ∃ c, cs !! Z.to_nat i = Some (Some c) ∧ node_ok L c.
Proof. done. Qed.

Lemma lookupNode_S L level n q :
  lookupNode (S L) level n q =
  if isLeaf n then Some n
  else match getChild n (getChildIndex q level) with
       | Some child => lookupNode L (level - 1) child q
       | None => None
       end.
Proof. done. Qed.

Lemma mjoin_Some_Some {A} (x : A) : mjoin (Some (Some x)) = Some x.
Proof. done. Qed.

Lemma length_emptyChildren : length emptyChildren = 8%nat.
Proof. done. Qed.

Lemma node_ok_new L lvl : L ≠ O → node_ok L (SVONode.new lvl).
Proof. destruct L; [done |]. by intros _. Qed.

Lemma lookupNode_leaf L level n q :
  isLeaf n = true → lookupNode L level n q = Some n.
Proof. destruct L; [done |]. simpl. by intros ->. Qed.

Lemma level_pred L : Z.of_nat (S L) - 1 = Z.of_nat L.
Proof. lia. Qed.

Lemma level_above_1 L : (1 <? Z.of_nat (S (S L))) = true.
Proof. apply Z.ltb_lt. lia. Qed.

Lemma createChild_children n cs0 i :
  children n = Some cs0 →
  children (createChild n i) =
    Some (<[Z.to_nat i := Some (SVONode.new (SVONode.level n - 1))]> cs0).
Proof. unfold createChild. by intros ->. Qed.

Lemma hasChild_createChild n i j :
  0 ≤ i → 0 ≤ j →
  hasChild (createChild n i) j = bool_decide (i = j) || hasChild n j.
Proof.
  intros Hi Hj. unfold createChild. rewrite hasChild_setChild by done.
  f_equal.
Qed.

Lemma isLeaf_createChild n i : isLeaf (createChild n i) = isLeaf n.
Proof. done. Qed.

(** What [ensureChild] establishes, and that it does not change the
    material any position reads. *)
Lemma ensureChild_ok L n pos q :
  let level := Z.of_nat (S (S L)) in
  let idx := getChildIndex pos level in
  node_ok (S (S L)) n →
  node_ok (S (S L)) (ensureChild n idx) ∧
  isLeaf (ensureChild n idx) = false ∧
  hasChild (ensureChild n idx) idx = true ∧
  materialOf (lookupNode (S (S L)) level (ensureChild n idx) q)
  = materialOf (lookupNode (S (S L)) level n q).
Proof.
  intros level idx Hok.
  pose proof (getChildIndex_range pos level) as Hidx. fold idx in Hidx.
  pose proof (getChildIndex_range q level) as Hq.
  unfold ensureChild. rewrite node_ok_S in Hok.
  destruct (isLeaf n) eqn:Hleaf.
  - (* an untouched leaf: converted, then the child is created *)
    destruct Hok as [Hmat Hmask]; [done |].
    assert (hasChild (toInternal n) idx = false) as Hno
      by by apply hasChild_mask0.
    rewrite Hno. cbn [negb].
    assert (∀ j, 0 ≤ j → hasChild (createChild (toInternal n) idx) j
                         = bool_decide (idx = j)) as Hhas.
    { intros j Hj. rewrite hasChild_createChild by lia.
      rewrite (hasChild_mask0 (toInternal n)) by done. apply orb_false_r. }
    split; [| split; [done | split]].
    + rewrite node_ok_S. rewrite isLeaf_createChild. cbn [toInternal isLeaf].
      split; [done |]. eexists. split; [by apply createChild_children |].
      split; [by rewrite length_insert |].
      intros i Hi. rewrite Hhas by lia. intros ->%bool_decide_eq_true.
      eexists. split; [| by apply node_ok_new].
      rewrite list_lookup_insert_eq; [done |].
      rewrite length_emptyChildren. lia.
    + rewrite Hhas by lia. by apply bool_decide_eq_true.
    + rewrite (lookupNode_leaf _ _ n) by done.
      rewrite materialOf_leaf0 by done.
      rewrite lookupNode_S, isLeaf_createChild. cbn [toInternal isLeaf].
      unfold getChild. rewrite Hhas by lia.
      case_bool_decide as E; cbn [negb]; [| done].
      rewrite <- E.
      erewrite slot_lookup by (by apply createChild_children).
      rewrite list_lookup_insert_eq
        by (rewrite length_emptyChildren; lia).
      rewrite mjoin_Some_Some, lookupNode_leaf by done.
      by apply materialOf_leaf0.
  - destruct Hok as (HL & cs & Hcs & Hlen & Hch).
    destruct (hasChild n idx) eqn:Hhas; cbn [negb].
    + (* the child is there *)
      split; [| done]. rewrite node_ok_S. rewrite Hleaf. eauto 10.
    + (* the child is created in the existing array *)
      assert (∀ j, 0 ≤ j → hasChild (createChild n idx) j
                           = bool_decide (idx = j) || hasChild n j) as Hhas'.
      { intros j Hj. apply hasChild_createChild; lia. }
      split; [| split; [done | split]].
      * rewrite node_ok_S. rewrite isLeaf_createChild, Hleaf.
        split; [done |]. eexists. split; [by apply createChild_children |].
        split; [by rewrite length_insert |].
        intros i Hi. rewrite Hhas' by lia.
        case_bool_decide as E; cbn [orb].
        -- intros _. subst i. eexists. split; [| by apply node_ok_new].
           rewrite list_lookup_insert_eq; [done | lia].
        -- intros Hi'. destruct (Hch i Hi Hi') as (c & Hc & Hokc).
           exists c. split; [| done].
           rewrite list_lookup_insert_ne; [done | lia].
      * rewrite Hhas' by lia. by rewrite bool_decide_eq_true_2.
      * rewrite !lookupNode_S, isLeaf_createChild, Hleaf.
        unfold getChild. rewrite Hhas' by lia.
        case_bool_decide as E; cbn [orb negb].
        -- rewrite <- E, Hhas. cbn [negb].
           erewrite slot_lookup by (by apply createChild_children).
           rewrite list_lookup_insert_eq by lia.
           rewrite mjoin_Some_Some, lookupNode_leaf by done.
           by apply materialOf_leaf0.
        -- destruct (hasChild n (getChildIndex q level)); cbn [negb]; [| done].
           erewrite slot_lookup by (by apply createChild_children).
           erewrite (slot_lookup n) by done.
           rewrite list_lookup_insert_ne; [done | lia].
Qed.

Lemma writeNode_S f L level n pos :
  writeNode f (S L) level n pos =
  if isLeaf n && negb (1 <? level) then f n
  else match getChild (ensureChild n (getChildIndex pos level))
                      (getChildIndex pos level) with
       | None => ensureChild n (getChildIndex pos level)
       | Some child =>
           setSlot (ensureChild n (getChildIndex pos level))
                   (getChildIndex pos level)
                   (writeNode f L (level - 1) child pos)
       end.
Proof. done. Qed.

Lemma aliasb_SS L p q :
  aliasb (S (S L)) p q =
  (getChildIndex p (Z.of_nat (S (S L))) =? getChildIndex q (Z.of_nat (S (S L))))
  && aliasb (S L) p q.
Proof. done. Qed.

Lemma writeNode_ensureChild f L n pos :
  let level := Z.of_nat (S (S L)) in
  writeNode f (S (S L)) level n pos
  = match getChild (ensureChild n (getChildIndex pos level))
            (getChildIndex pos level) with
    | None => ensureChild n (getChildIndex pos level)
    | Some child =>
        setSlot (ensureChild n (getChildIndex pos level))
          (getChildIndex pos level)
          (writeNode f (S L) (Z.of_nat (S L)) child pos)
    end.
Proof.
  intros level. rewrite writeNode_S. unfold level.
  by rewrite level_above_1, andb_false_r, level_pred.
Qed.

(** A write keeps the shape, sets the material read at every position
    taking the same path, and leaves the material read elsewhere. *)
Lemma writeNode_spec voxel L : ∀ n pos q,
  node_ok L n →
  node_ok L (writeNode (writeLeaf voxel) L (Z.of_nat L) n pos) ∧
  materialOf (lookupNode L (Z.of_nat L)
                (writeNode (writeLeaf voxel) L (Z.of_nat L) n pos) q)
  = if aliasb L pos q then Voxel.materialID voxel
    else materialOf (lookupNode L (Z.of_nat L) n q).
Proof.
  induction L as [| L IH]; intros n pos q Hok; [done |].
  destruct L as [| L].
  - (* level 1: the node is the leaf written *)
    rewrite node_ok_S in Hok.
    destruct (isLeaf n) eqn:Hleaf; [| by destruct Hok].
    rewrite writeNode_S, Hleaf. cbn [andb negb Z.ltb Z.compare Z.of_nat Pos.of_succ_nat Pos.compare Pos.compare_cont].
    unfold writeLeaf. rewrite Hleaf. rewrite node_ok_S, !lookupNode_S. cbn [isLeaf].
    split; [done |]. by rewrite Hleaf.
  - pose proof (ensureChild_ok L n pos q Hok) as (Hok2 & Hleaf2 & Hhas2 & Hmat2).
    cbv zeta in Hok2, Hleaf2, Hhas2, Hmat2.
    rewrite <- Hmat2. clear Hmat2.
    rewrite writeNode_ensureChild.
    pose proof (getChildIndex_range pos (Z.of_nat (S (S L)))) as Hidx.
    pose proof (getChildIndex_range q (Z.of_nat (S (S L)))) as Hq.
    set (idx := getChildIndex pos (Z.of_nat (S (S L)))) in *.
    set (c2 := ensureChild n idx) in *.
    pose proof Hok2 as Hok2'. rewrite node_ok_S, Hleaf2 in Hok2'.
    destruct Hok2' as (_ & cs & Hcs & Hlen & Hch).
    destruct (Hch idx Hidx Hhas2) as (child & Hchild & Hokc).
    assert (slot c2 idx = Some child) as Hslot.
    { rewrite (slot_lookup _ _ _ Hcs), Hchild. done. }
    assert (getChild c2 idx = Some child) as Hget.
    { unfold getChild. by rewrite Hhas2. }
    rewrite Hget.
    set (w := writeNode (writeLeaf voxel) (S L) (Z.of_nat (S L)) child pos).
    destruct (IH child pos q Hokc) as [Hokw Hmatw]. fold w in Hokw, Hmatw.
    split.
    + rewrite node_ok_S, isLeaf_setSlot, Hleaf2. split; [done |].
      exists (<[Z.to_nat idx := Some w]> cs). unfold setSlot at 1. rewrite Hcs.
      split; [done |]. split; [by rewrite length_insert |].
      intros i Hi. rewrite hasChild_setSlot. intros Hhas.
      destruct (decide (i = idx)) as [-> | Hne].
      * exists w. split; [| done]. rewrite list_lookup_insert_eq; [done | lia].
      * destruct (Hch i Hi Hhas) as (c & Hc & Hokc').
        exists c. split; [| done]. rewrite list_lookup_insert_ne; [done | lia].
    + rewrite !lookupNode_S, aliasb_SS, isLeaf_setSlot, Hleaf2, level_pred.
      fold idx.
      destruct (Z.eqb_spec idx (getChildIndex q (Z.of_nat (S (S L)))))
        as [E | E]; cbn [andb].
      * rewrite <- E. rewrite (getChild_setSlot_eq _ _ _ _ Hget), Hget. exact Hmatw.
      * rewrite getChild_setSlot_ne by lia. done.
Qed.
End svo_write_read.

(** ** Octree: writes, reads and chunk transfers *)

Section svo_chunks.
Import SparseVoxelOctree.

Lemma svo_ok_new depth : 1 ≤ depth → svo_ok (new depth).
Proof.
  intros H. split; [simpl; lia |]. eexists. split; [done |].
  apply node_ok_new. simpl. lia.
Qed.

Lemma getVoxel_material o q :
  Voxel.materialID (getVoxel o q) =
  materialOf (root o ≫= λ r, lookupNode (Z.to_nat (maxDepth o)) (maxDepth o) r q).
Proof. by rewrite getVoxel_lookup. Qed.

Lemma setVoxel_dims o pos voxel :
  maxDepth (setVoxel o pos voxel) = maxDepth o ∧
  worldSize (setVoxel o pos voxel) = worldSize o.
Proof. rewrite setVoxel_writeNode. by destruct (inWorld o pos). Qed.

Lemma inWorld_dims o o' p : worldSize o' = worldSize o → inWorld o' p = inWorld o p.
Proof. unfold inWorld. by intros ->. Qed.

Lemma alias_dims o o' p q : maxDepth o' = maxDepth o → alias o' p q = alias o p q.
Proof. unfold alias. by intros ->. Qed.

(** A write is read back at every position [findNode] leads to the same
    node, and at no other; a write outside the world is dropped. *)
Lemma setVoxel_spec o pos voxel q :
  svo_ok o →
  svo_ok (setVoxel o pos voxel) ∧
  Voxel.materialID (getVoxel (setVoxel o pos voxel) q) =
    if inWorld o pos && alias o pos q then Voxel.materialID voxel
    else Voxel.materialID (getVoxel o q).
Proof.
  intros (Hdepth & r & Hr & Hok).
  rewrite !getVoxel_material, setVoxel_writeNode.
  destruct (inWorld o pos); cbn [negb andb].
  2: { split; [| done]. split; [done |]. eauto. }
  destruct o as [r' depth size]. simpl in *. subst r'. simpl.
  destruct (writeNode_spec voxel (Z.to_nat depth) r pos q Hok) as [Hok' Hmat].
  rewrite (Z2Nat.id depth) in Hok', Hmat by done.
  split; [| exact Hmat].
  split; [done |]. eexists. split; [done |]. exact Hok'.
Qed.

Section transfer.
Context (chunkPos : ChunkPos.t) (chunk : WorldChunk.t).

Local Abbreviation store := (storeStep chunkPos chunk).

Lemma storeChunkData_foldl o :
  storeChunkData o chunkPos chunk = foldl store o WorldChunk.localPositions.
Proof. done. Qed.

Lemma store_foldl_dims l : ∀ o,
  maxDepth (foldl store o l) = maxDepth o ∧
  worldSize (foldl store o l) = worldSize o.
Proof.
  induction l as [| a l IH]; intros o; [done |]. simpl.
  destruct (IH (store o a)) as [-> ->]. apply setVoxel_dims.
Qed.

Lemma store_foldl_ok l : ∀ o, svo_ok o → svo_ok (foldl store o l).
Proof.
  induction l as [| a l IH]; intros o Hok; [done |]. simpl.
  apply IH. by apply setVoxel_spec.
Qed.

(** Writes that are dropped or go to other nodes leave the material
    read at [q]. *)
Lemma store_foldl_frame q l : ∀ o,
  svo_ok o →
  Forall (λ lp, inWorld o (chunkWorldPos chunkPos lp)
                && alias o (chunkWorldPos chunkPos lp) q = false) l →
  Voxel.materialID (getVoxel (foldl store o l) q)
  = Voxel.materialID (getVoxel o q).
Proof.
  induction l as [| a l IH]; intros o Hok Hall; [done |].
  apply Forall_cons in Hall as [Ha Hl]. simpl.
  destruct (setVoxel_dims o (chunkWorldPos chunkPos a)
              (WorldChunk.getVoxel chunk a)) as [Hd Hw].
  rewrite IH.
  - unfold storeStep.
    destruct (setVoxel_spec o (chunkWorldPos chunkPos a)
                (WorldChunk.getVoxel chunk a) q Hok) as [_ ->].
    by rewrite Ha.
  - by apply setVoxel_spec.
  - eapply Forall_impl; [exact Hl |]. intros lp Hlp. cbv beta in *.
    unfold storeStep. by rewrite (inWorld_dims _ _ _ Hw), (alias_dims _ _ _ _ Hd).
Qed.

(** After [storeChunkData], the material read at [q] is that of the
    chunk voxel written last among the positions that reach the node
    of [q]. *)
Lemma storeChunkData_last o q l1 lp l2 :
  svo_ok o →
  WorldChunk.localPositions = l1 ++ lp :: l2 →
  inWorld o (chunkWorldPos chunkPos lp) = true →
  alias o (chunkWorldPos chunkPos lp) q = true →
  Forall (λ lp', inWorld o (chunkWorldPos chunkPos lp')
                 && alias o (chunkWorldPos chunkPos lp') q = false) l2 →
  Voxel.materialID (getVoxel (storeChunkData o chunkPos chunk) q)
  = Voxel.materialID (WorldChunk.getVoxel chunk lp).
Proof.
  intros Hok Hsplit Hin Halias Hrest.
  rewrite storeChunkData_foldl, Hsplit, foldl_app. simpl.
  pose proof (store_foldl_ok l1 o Hok) as Hok1.
  destruct (store_foldl_dims l1 o) as [Hd Hw].
  set (o1 := foldl store o l1) in *.
  rewrite store_foldl_frame.
  - unfold storeStep.
    destruct (setVoxel_spec o1 (chunkWorldPos chunkPos lp)
                (WorldChunk.getVoxel chunk lp) q Hok1) as [_ ->].
    by rewrite (inWorld_dims _ _ _ Hw), (alias_dims _ _ _ _ Hd), Hin, Halias.
  - by apply setVoxel_spec.
  - destruct (setVoxel_dims o1 (chunkWorldPos chunkPos lp)
                (WorldChunk.getVoxel chunk lp)) as [Hd' Hw'].
    eapply Forall_impl; [exact Hrest |]. intros lp' Hlp'. cbv beta in *.
    unfold storeStep.
    rewrite (inWorld_dims o1), (alias_dims o1) by done.
    by rewrite (inWorld_dims _ _ _ Hw), (alias_dims _ _ _ _ Hd).
Qed.
End transfer.

(** [loadChunkData] leaves a local position alone when the octree reads
    air there. *)
Lemma loadChunkData_air o chunkPos chunk lp :
  Voxel.materialID (getVoxel o (chunkWorldPos chunkPos lp)) = MaterialPalette.AIR →
  WorldChunk.getVoxel (loadChunkData o chunkPos chunk) lp
  = WorldChunk.getVoxel chunk lp.
Proof.
  intros Hair. unfold loadChunkData.
  fold (chunkWorldPos chunkPos).
  generalize WorldChunk.localPositions. intros l. revert chunk.
  induction l as [| a l IH]; intros chunk; [done |]. simpl.
  rewrite IH. fold (chunkWorldPos chunkPos a).
  destruct (Z.eqb_spec (Voxel.materialID (getVoxel o (chunkWorldPos chunkPos a)))
              MaterialPalette.AIR) as [E | E]; [done |].
  apply getVoxel_setVoxel_ne. intros ->. done.
Qed.

(** The constructor's octree reads material 0 everywhere. *)
Lemma getVoxel_new depth q : getVoxel (new depth) q = Voxel.make 0 255.
Proof.
  rewrite getVoxel_lookup. simpl. by rewrite lookupNode_leaf.
Qed.

(** Loading from an octree that reads air over the whole chunk changes
    nothing. *)
Lemma loadChunkData_all_air o chunkPos chunk :
  (∀ lp, Voxel.materialID (getVoxel o (chunkWorldPos chunkPos lp)) = MaterialPalette.AIR) →
  loadChunkData o chunkPos chunk = chunk.
Proof.
  intros Hair. unfold loadChunkData. fold (chunkWorldPos chunkPos).
  generalize WorldChunk.localPositions. intros l.
  induction l as [| a l IH] using rev_ind; [done |].
  rewrite foldl_app. simpl. rewrite IH. fold (chunkWorldPos chunkPos a).
  by rewrite Hair.
Qed.
End svo_chunks.

(** ** Manager: loading, unloading and the worker *)

Section manager.
Import VoxelWorldManager.

Lemma unloadChunk_resident m pos h c o :
  activeChunks m !! pos = Some h → chunkAt m h = Some c → svoStorage m = Some o →
  unloadChunk m pos =
    mk (Some (SparseVoxelOctree.storeChunkData o pos c)) (chunkStore m)
       (nextHandle m) (delete pos (activeChunks m)) (loadingQueue m)
       (Statistics.mk (wrap32 (Statistics.activeChunks (stats m) - 1))
                      (Statistics.loadedChunks (stats m))
                      (Statistics.pendingLoads (stats m))).
Proof.
  intros Hact Hc Ho. unfold unloadChunk, storeChunkToSVO. by rewrite Hact, Hc, Ho.
Qed.

Lemma unloadChunk_absent m pos : activeChunks m !! pos = None → unloadChunk m pos = m.
Proof. intros H. unfold unloadChunk. by rewrite H. Qed.

Lemma unloadChunk_queue m pos : loadingQueue (unloadChunk m pos) = loadingQueue m.
Proof. unfold unloadChunk. by destruct (activeChunks m !! pos). Qed.

Lemma unloadChunk_active m pos : activeChunks (unloadChunk m pos) !! pos = None.
Proof.
  unfold unloadChunk. destruct (activeChunks m !! pos) eqn:E; [| done].
  simpl. apply lookup_delete_eq.
Qed.

Lemma loadChunk_absent m pos priority :
  activeChunks m !! pos = None →
  loadChunk m pos priority =
    mk (svoStorage m) (<[nextHandle m := WorldChunk.new pos]> (chunkStore m))
       (S (nextHandle m)) (<[pos := nextHandle m]> (activeChunks m))
       (loadingQueue m ++ [ChunkLoadTask.mk pos (nextHandle m) priority])
       (Statistics.mk (Statistics.activeChunks (stats m))
                      (Statistics.loadedChunks (stats m))
                      (wrap32 (Statistics.pendingLoads (stats m) + 1))).
Proof. intros H. unfold loadChunk. by rewrite H. Qed.

Lemma loadChunk_resident m pos priority :
  is_Some (activeChunks m !! pos) → loadChunk m pos priority = m.
Proof. intros [h H]. unfold loadChunk. by rewrite H. Qed.

(** The worker takes the task at the front of the queue. *)
Lemma worker_step_queue m :
  loadingQueue (chunkLoadingWorker_step m) = tail (loadingQueue m).
Proof.
  unfold chunkLoadingWorker_step.
  destruct (loadingQueue m) eqn:E; [by rewrite E | done].
Qed.

Lemma worker_step_svo m : svoStorage (chunkLoadingWorker_step m) = svoStorage m.
Proof. unfold chunkLoadingWorker_step. by destruct (loadingQueue m). Qed.

Lemma worker_step_active m :
  activeChunks (chunkLoadingWorker_step m) = activeChunks m.
Proof. unfold chunkLoadingWorker_step. by destruct (loadingQueue m). Qed.

Lemma worker_step_other m h :
  (∀ task, head (loadingQueue m) = Some task → ChunkLoadTask.chunk task ≠ h) →
  chunkAt (chunkLoadingWorker_step m) h = chunkAt m h.
Proof.
  unfold chunkLoadingWorker_step, chunkAt.
  destruct (loadingQueue m) as [| task rest]; [done |]. intros H. simpl.
  destruct (chunkStore m !! ChunkLoadTask.chunk task); [| done].
  apply lookup_insert_ne, H. done.
Qed.

Lemma worker_step_task m task rest c o :
  loadingQueue m = task :: rest →
  chunkAt m (ChunkLoadTask.chunk task) = Some c → svoStorage m = Some o →
  chunkAt (chunkLoadingWorker_step m) (ChunkLoadTask.chunk task) =
    Some (WorldChunk.setState
            (SparseVoxelOctree.loadChunkData o (ChunkLoadTask.position task) c)
            WorldChunk.ACTIVE).
Proof.
  intros Hq Hc Ho. unfold chunkLoadingWorker_step, loadChunkFromSVO.
  rewrite Hq, Hc, Ho. unfold chunkAt. simpl. apply lookup_insert_eq.
Qed.

Lemma completeLoads_cons m task rest :
  loadingQueue m = task :: rest →
  completeLoads m = completeLoads (chunkLoadingWorker_step m).
Proof.
  intros Hq. unfold completeLoads. rewrite worker_step_queue, Hq. simpl.
  generalize (length rest). intros n.
  induction n as [| n IH]; [done |]. simpl. by rewrite <- IH.
Qed.

(** Once every queued load is done, the chunk of the task queued last
    holds what [loadChunkData] read from the octree, and is [ACTIVE]. *)
Lemma completeLoads_last l : ∀ m task c o,
  loadingQueue m = l ++ [task] →
  Forall (λ t, ChunkLoadTask.chunk t ≠ ChunkLoadTask.chunk task) l →
  chunkAt m (ChunkLoadTask.chunk task) = Some c → svoStorage m = Some o →
  chunkAt (completeLoads m) (ChunkLoadTask.chunk task) =
    Some (WorldChunk.setState
            (SparseVoxelOctree.loadChunkData o (ChunkLoadTask.position task) c)
            WorldChunk.ACTIVE) ∧
  activeChunks (completeLoads m) = activeChunks m ∧
  loadingQueue (completeLoads m) = [] ∧
  svoStorage (completeLoads m) = svoStorage m.
Proof.
  induction l as [| t l IH]; intros m task c o Hq Hne Hc Ho.
  - simpl in Hq. unfold completeLoads. rewrite Hq. simpl.
    rewrite (worker_step_task m task [] c o) by done.
    by rewrite worker_step_active, worker_step_queue, worker_step_svo, Hq.
  - apply Forall_cons in Hne as [Ht Hl]. simpl in Hq.
    rewrite (completeLoads_cons m t (l ++ [task])) by done.
    destruct (IH (chunkLoadingWorker_step m) task c o) as (H1 & H2 & H3 & H4).
    + by rewrite worker_step_queue, Hq.
    + done.
    + rewrite worker_step_other; [done |]. rewrite Hq. simpl. by intros ? [= <-].
    + by rewrite worker_step_svo.
    + by rewrite H1, H2, H3, H4, worker_step_active, worker_step_svo.
Qed.
End manager.

(** ** Eviction and reload of the chunk at the origin *)

Section eviction.
Import SparseVoxelOctree Eviction.

Lemma wrap32_small z : -2147483648 ≤ z < 2147483648 → wrap32 z = z.
Proof. intros H. unfold wrap32. rewrite Z.mod_small; lia. Qed.

Lemma chunkWorldPos_origin lp :
  WorldChunk.isValidLocalPos lp = true → chunkWorldPos chunkPos lp = lp.
Proof.
  intros (Hx & Hy & Hz)%isValidLocalPos_spec. unfold WorldChunk.CHUNK_SIZE in *.
  destruct lp as [x y z].
  unfold chunkWorldPos, worldPosOf, ChunkPos.toVoxelPos, chunkPos. simpl in *.
  change (0 * WorldChunk.CHUNK_SIZE) with 0.
  rewrite (wrap32_small 0), !Z.add_0_l by lia.
  by rewrite !wrap32_small by lia.
Qed.

Lemma aliasb_level L p q :
  aliasb L p q = true →
  ∀ k, (2 ≤ k ≤ L)%nat →
       getChildIndex p (Z.of_nat k) = getChildIndex q (Z.of_nat k).
Proof.
  induction L as [| L IH]; intros H k Hk; [lia |].
  destruct L as [| L]; [lia |].
  rewrite aliasb_SS in H. apply andb_true_iff in H as [H1 H2].
  destruct (decide (k = S (S L))) as [-> | Hne].
  - by apply Z.eqb_eq.
  - apply IH; [done | lia].
Qed.

Lemma getNodeSize_3 : getNodeSize 3 = 8.
Proof. reflexivity. Qed.

(** A position with a coordinate from 8 on parts from [pos] at level 4. *)
Lemma far_not_alias lp : farb lp = true → aliasb 20 lp pos = false.
Proof.
  unfold farb. intros [_ Hfar]%andb_true_iff.
  destruct (aliasb 20 lp pos) eqn:E; [| done]. exfalso.
  apply aliasb_level with (k := 4%nat) in E; [| lia].
  change (getChildIndex pos (Z.of_nat 4)) with 0 in E.
  unfold getChildIndex in E.
  change (Z.of_nat 4 - 1) with 3 in E. rewrite getNodeSize_3 in E.
  destruct (8 <=? VoxelPos.x lp), (8 <=? VoxelPos.y lp), (8 <=? VoxelPos.z lp);
    done.
Qed.

Lemma localPositions_lastAlias :
  WorldChunk.localPositions !! lastAliasIndex = Some lastAlias.
Proof. vm_compute. reflexivity. Qed.

Lemma localPositions_after :
  forallb farb (drop (S lastAliasIndex) WorldChunk.localPositions) = true.
Proof. vm_compute. reflexivity. Qed.

(** After the flush the octree reads at [pos] the material the chunk holds
    at [lastAlias]: the node of [pos] is also the node of [lastAlias],
    which is written later. *)
Lemma flushed_reads_lastAlias chunk :
  Voxel.materialID (getVoxel (storeChunkData (new 20) chunkPos chunk) pos)
  = Voxel.materialID (WorldChunk.getVoxel chunk lastAlias).
Proof.
  apply (storeChunkData_last chunkPos chunk (new 20) pos
           (take lastAliasIndex WorldChunk.localPositions) lastAlias
           (drop (S lastAliasIndex) WorldChunk.localPositions)).
  - by apply svo_ok_new.
  - symmetry. apply take_drop_middle, localPositions_lastAlias.
  - reflexivity.
  - reflexivity.
  - apply Forall_forall. intros lp Hlp.
    pose proof localPositions_after as Hall.
    rewrite forallb_forall in Hall.
    assert (farb lp = true) as Hfar by (by apply Hall, list_elem_of_In).
    pose proof Hfar as [Hvalid _]%andb_true_iff.
    rewrite (chunkWorldPos_origin lp Hvalid).
    unfold alias. change (Z.to_nat (maxDepth (new 20))) with 20%nat.
    rewrite (far_not_alias lp Hfar). apply andb_false_r.
Qed.

End eviction.

Section eviction_manager.
Import VoxelWorldManager Eviction.

(** The manager after the write of the scenario. *)
Lemma written_state :
  activeChunks written !! chunkPos = Some 0%nat ∧
  chunkAt written 0%nat = Some evicted ∧
  svoStorage written = Some (SparseVoxelOctree.new 20) ∧
  loadingQueue written = [ChunkLoadTask.mk chunkPos 0%nat ChunkLoadTask.URGENT] ∧
  nextHandle written = 1%nat.
Proof. vm_compute. done. Qed.

(** Eviction and reload of the origin chunk of a manager whose octree is
    still the constructor's: once the loads are done, the manager reads
    air at [pos] if the evicted chunk held air at [lastAlias]. *)
Lemma reload_reads_air m h c task :
  activeChunks m !! chunkPos = Some h → chunkAt m h = Some c →
  svoStorage m = Some (SparseVoxelOctree.new 20) →
  loadingQueue m = [] ∨ (loadingQueue m = [task] ∧ ChunkLoadTask.chunk task ≠ nextHandle m) →
  Voxel.materialID (WorldChunk.getVoxel c lastAlias) = MaterialPalette.AIR →
  getVoxel (completeLoads (reloading m)) pos = Voxel.make MaterialPalette.AIR 0.
Proof.
  intros Hact Hc Ho Hq Hair. unfold reloading.
  rewrite (unloadChunk_resident m chunkPos h c (SparseVoxelOctree.new 20)) by done.
  rewrite loadChunk_absent by (cbn [activeChunks]; apply lookup_delete_eq).
  cbn [svoStorage chunkStore nextHandle activeChunks loadingQueue stats].
  set (svo := SparseVoxelOctree.storeChunkData (SparseVoxelOctree.new 20) chunkPos c).
  set (task1 := ChunkLoadTask.mk chunkPos (nextHandle m) ChunkLoadTask.NORMAL).
  set (m3 := mk _ _ _ _ _ _).
  destruct (completeLoads_last (loadingQueue m) m3 task1
              (WorldChunk.new chunkPos) svo) as (Hchunk & Hactive & _ & _).
  - reflexivity.
  - destruct Hq as [-> | [-> Hne]]; [by apply Forall_nil |].
    by apply Forall_singleton.
  - unfold chunkAt, m3, task1. cbn [chunkStore ChunkLoadTask.chunk].
    apply lookup_insert_eq.
  - reflexivity.
  - unfold getVoxel, getChunk.
    change (ChunkPos.of_voxel pos WorldChunk.CHUNK_SIZE) with chunkPos.
    rewrite Hactive. unfold m3 at 1. cbn [activeChunks].
    rewrite lookup_insert_eq.
    unfold task1 in Hchunk. cbn [ChunkLoadTask.chunk ChunkLoadTask.position] in Hchunk.
    rewrite Hchunk.
    change (localPosOf pos) with pos.
    unfold WorldChunk.setState. rewrite getVoxel_with_state.
    rewrite loadChunkData_air; [reflexivity |].
    rewrite (chunkWorldPos_origin pos) by reflexivity.
    unfold svo. rewrite flushed_reads_lastAlias. exact Hair.
Qed.

(** C1 (eviction durability), evaluated on the code.  After
    [setVoxel({5,5,5}, Voxel(STONE,255))] the manager reads the stone
    voxel back; after [unloadChunk(ChunkPos(0,0,0))],
    [loadChunk(ChunkPos(0,0,0))] and completion of the queued loads,
    [getVoxel({5,5,5})] returns [Voxel(AIR,0)], not [Voxel(STONE,255)].
    This holds whether the first load of the chunk is still queued at the
    eviction or has completed before it. *)
Theorem eviction_reload_reads_air :
  getVoxel written pos = stone ∧
  getVoxel (completeLoads (reloading written)) pos
    = Voxel.make MaterialPalette.AIR 0 ∧
  getVoxel (completeLoads (reloading (completeLoads written))) pos
    = Voxel.make MaterialPalette.AIR 0.
Proof.
  destruct written_state as (Hact & Hc & Ho & Hq & Hnext).
  split; [by vm_compute |]. split.
  - apply (reload_reads_air written 0%nat evicted
             (ChunkLoadTask.mk chunkPos 0%nat ChunkLoadTask.URGENT)).
    + exact Hact.
    + exact Hc.
    + exact Ho.
    + right. split; [exact Hq |]. rewrite Hnext. done.
    + reflexivity.
  - pose proof (completeLoads_last [] written
                  (ChunkLoadTask.mk chunkPos 0%nat ChunkLoadTask.URGENT)
                  evicted (SparseVoxelOctree.new 20) Hq (Forall_nil_2 _) Hc Ho)
      as (Hc' & Hact' & Hq' & Ho').
    cbn [ChunkLoadTask.chunk ChunkLoadTask.position] in Hc'.
    eapply (reload_reads_air _ 0%nat _
              (ChunkLoadTask.mk chunkPos 0%nat ChunkLoadTask.URGENT)).
    + by rewrite Hact'.
    + exact Hc'.
    + by rewrite Ho'.
    + by left.
    + unfold WorldChunk.setState. rewrite getVoxel_with_state.
      rewrite loadChunkData_air; [reflexivity |].
      by rewrite getVoxel_new.
Qed.
End eviction_manager.



(** ** MaterialPalette::addMaterial *)

Section claim_palette.
Import MaterialPalette.

(** C8.  For every palette a program can hold (the constructor's palette
    after any sequence of [addMaterial] calls), [addMaterial] throws exactly
    when the palette holds 255 materials; the exception is the
    [runtime_error] reporting the full palette, and the throwing call leaves
    the palette as it was, so the count and every stored material are
    unchanged.  With fewer than 255 the material is appended and its index
    returned. *)
Theorem addMaterial_exhausted (ms : list Material.t) (material : Material.t) :
  let p := addMaterials new ms in
  ((∃ e, (addMaterial p material).2 = inl e) ↔ getMaterialCount p = 255) ∧
  (∀ e, (addMaterial p material).2 = inl e →
        e = runtime_error "Material palette is full (max 255 materials)" ∧
        (addMaterial p material).1 = p ∧
        getMaterialCount (addMaterial p material).1 = getMaterialCount p ∧
        materials (addMaterial p material).1 = materials p) ∧
  (getMaterialCount p < 255 →
   (addMaterial p material).2 = inr (getMaterialCount p) ∧
   materials (addMaterial p material).1 = materials p ++ [material]).
Proof.
  intros p. pose proof (addMaterials_count_bound ms) as Hbound. fold p in Hbound.
  destruct (decide (getMaterialCount p = 255)) as [E | E].
  - rewrite addMaterial_full by lia. simpl.
    split; [split; eauto |]. split; [| lia].
    intros e [= <-]. done.
  - rewrite addMaterial_room by lia. simpl.
    split; [split; [by intros [e ?] | done] |]. split; [done | done].
Qed.

(** The palette filled up to 255 materials: the 13 standard ones and 242
    custom ones. *)
Lemma addMaterial_exhausted_witness :
  let custom := Material.make "Custom" (0, 0, 0)%Q 1 in
  let full := addMaterials new (replicate 242 custom) in
  getMaterialCount full = 255 ∧
  (addMaterial full custom).1 = full.
Proof.
  intros custom full.
  assert (getMaterialCount full = 255) as Hfull by (by vm_compute).
  split; [exact Hfull |].
  destruct (addMaterial_exhausted (replicate 242 custom) custom) as (Hiff & Hfail & _).
  destruct (proj2 Hiff Hfull) as [e He].
  exact (proj1 (proj2 (Hfail e He))).
Defined.
End claim_palette.

(** ** WorldChunk reads and writes *)

Section claim_chunk.
Import WorldChunk.

(** C2, as the code has it.  For a well-formed chunk and a local position
    in range, reading back the position just written returns the written
    voxel (all four fields) when the chunk uses its dense array or the voxel
    is not air; in the sparse representation an air voxel is not stored (the
    entry is erased) and the read returns the sentinel [Voxel(AIR, 0)]. *)
Theorem setVoxel_getVoxel_roundtrip (c : WorldChunk.t) (pos : VoxelPos.t) (v : Voxel.t) :
  WorldChunk_wf c →
  0 ≤ VoxelPos.x pos < CHUNK_SIZE ∧ 0 ≤ VoxelPos.y pos < CHUNK_SIZE ∧
  0 ≤ VoxelPos.z pos < CHUNK_SIZE →
  getVoxel (setVoxel c pos v) pos =
    if WorldChunk_usesDense c || negb (Voxel.materialID v =? MaterialPalette.AIR)
    then v else Voxel.make MaterialPalette.AIR 0.
Proof.
  intros Hwf Hpos. apply getVoxel_setVoxel_eq; [done |].
  by apply isValidLocalPos_spec.
Qed.

Lemma setVoxel_getVoxel_roundtrip_witness :
  getVoxel (setVoxel (new (ChunkPos.mk 0 0 0)) (VoxelPos.mk 5 5 5)
              (Voxel.make MaterialPalette.STONE 255)) (VoxelPos.mk 5 5 5)
  = Voxel.make MaterialPalette.STONE 255.
Proof.
  apply (setVoxel_getVoxel_roundtrip (new (ChunkPos.mk 0 0 0)) (VoxelPos.mk 5 5 5)
           (Voxel.make MaterialPalette.STONE 255)).
  - apply wf_new.
  - simpl. unfold CHUNK_SIZE. lia.
Defined.

(** C2 as stated fails: in a sparse chunk the default voxel (air with
    health 255) is not read back. *)
Lemma setVoxel_getVoxel_air_counterexample :
  getVoxel (setVoxel (new (ChunkPos.mk 0 0 0)) (VoxelPos.mk 0 0 0) Voxel.default)
           (VoxelPos.mk 0 0 0)
  ≠ Voxel.default.
Proof. vm_compute. discriminate. Qed.

(** C3, evaluated on the code: a chunk in [DIRTY_STRUCTURE], the highest
    dirty level, does not satisfy [needsMeshUpdate], although it satisfies
    [isDirty], [needsPhysicsUpdate] and [needsStructuralAnalysis]. *)
Theorem needsMeshUpdate_misses_DIRTY_STRUCTURE
        (position : ChunkPos.t) (d : option (list Voxel.t))
        (s : option (gmap VoxelPos.t Voxel.t)) (b : bool) :
  let c := mk position DIRTY_STRUCTURE d s b in
  State_geb (state c) DIRTY_MESH = true ∧
  needsMeshUpdate c = false ∧
  isDirty c = true ∧ needsPhysicsUpdate c = true ∧ needsStructuralAnalysis c = true.
Proof. done. Qed.

(** C9.  A write at a position outside the chunk, or outside the world of
    the octree, returns the object unchanged; so no read, in range or not,
    sees a difference.  Both functions are total: nothing is raised. *)
Theorem out_of_range_write_dropped :
  (∀ (c : WorldChunk.t) (pos : VoxelPos.t) (v : Voxel.t),
     ¬ (0 ≤ VoxelPos.x pos < CHUNK_SIZE ∧ 0 ≤ VoxelPos.y pos < CHUNK_SIZE ∧
        0 ≤ VoxelPos.z pos < CHUNK_SIZE) →
     setVoxel c pos v = c ∧
     ∀ q, getVoxel (setVoxel c pos v) q = getVoxel c q) ∧
  (∀ (o : SparseVoxelOctree.t) (pos : VoxelPos.t) (v : Voxel.t),
     ¬ (0 ≤ VoxelPos.x pos < SparseVoxelOctree.worldSize o ∧
        0 ≤ VoxelPos.y pos < SparseVoxelOctree.worldSize o ∧
        0 ≤ VoxelPos.z pos < SparseVoxelOctree.worldSize o) →
     SparseVoxelOctree.setVoxel o pos v = o ∧
     ∀ q, SparseVoxelOctree.getVoxel (SparseVoxelOctree.setVoxel o pos v) q
          = SparseVoxelOctree.getVoxel o q).
Proof.
  split.
  - intros c pos v Hout.
    assert (setVoxel c pos v = c) as ->; [| done].
    apply setVoxel_invalid. apply not_true_is_false.
    by rewrite isValidLocalPos_spec.
  - intros o pos v Hout.
    assert (SparseVoxelOctree.setVoxel o pos v = o) as ->; [| done].
    unfold SparseVoxelOctree.setVoxel.
    destruct (SparseVoxelOctree.inWorld o pos) eqn:E; [| done].
    exfalso. apply Hout. unfold SparseVoxelOctree.inWorld in E.
    apply negb_true_iff in E. rewrite !orb_false_iff in E.
    rewrite !Z.ltb_ge, !Z.leb_gt in E. lia.
Qed.

Lemma out_of_range_write_dropped_witness :
  setVoxel (new (ChunkPos.mk 0 0 0)) (VoxelPos.mk 64 0 0)
           (Voxel.make MaterialPalette.STONE 255)
  = new (ChunkPos.mk 0 0 0) ∧
  SparseVoxelOctree.setVoxel (SparseVoxelOctree.new 20) (VoxelPos.mk 0 (-1) 0)
           (Voxel.make MaterialPalette.STONE 255)
  = SparseVoxelOctree.new 20.
Proof.
  destruct out_of_range_write_dropped as [Hchunk Hsvo]. split.
  - apply Hchunk. simpl. unfold CHUNK_SIZE. lia.
  - apply Hsvo. simpl. lia.
Defined.
End claim_chunk.

(** ** What the octree returns *)

Section claim_svo_voxel.
Import SparseVoxelOctree.

Lemma foldl_ext_all {A B} (f g : A → B → A) (l : list B) :
  (∀ a b, f a b = g a b) → ∀ a, foldl f a l = foldl g a l.
Proof.
  intros Hfg. induction l as [| b l IH]; intros a; [done |].
  simpl. by rewrite Hfg, IH.
Qed.

Lemma setVoxel_material_only o pos (v v' : Voxel.t) :
  Voxel.materialID v = Voxel.materialID v' → setVoxel o pos v = setVoxel o pos v'.
Proof. destruct v, v'. simpl. by intros ->. Qed.

(** C10.  Whatever the octree, a voxel returned by its [getVoxel] has
    flags 0 and structural support 255, and health 255 when [findNode]
    returns a uniform leaf and 0 otherwise.  The octree after [setVoxel] or
    [storeChunkData] depends on the voxels passed in only through their
    material: two voxels (or two chunks) with the same materials leave the
    same octree, so health and flags are never stored. *)
Theorem svo_keeps_material_only :
  (∀ (o : t) (pos : VoxelPos.t),
     Voxel.flags (getVoxel o pos) = 0 ∧
     Voxel.structuralSupport (getVoxel o pos) = 255 ∧
     Voxel.health (getVoxel o pos) = if coveredByUniformLeaf o pos then 255 else 0) ∧
  (∀ (o : t) (pos : VoxelPos.t) (v v' : Voxel.t),
     Voxel.materialID v = Voxel.materialID v' →
     setVoxel o pos v = setVoxel o pos v') ∧
  (∀ (o : t) (chunkPos : ChunkPos.t) (c c' : WorldChunk.t),
     (∀ lp, Voxel.materialID (WorldChunk.getVoxel c lp)
            = Voxel.materialID (WorldChunk.getVoxel c' lp)) →
     storeChunkData o chunkPos c = storeChunkData o chunkPos c').
Proof.
  split; [| split].
  - intros o pos. unfold getVoxel, coveredByUniformLeaf.
    destruct (findNode o pos false) as [o' [path |]]; [| done].
    destruct (deref o' path) as [node |]; [| done].
    by destruct (SVONode.isLeaf node && SVONode.isUniform node).
  - apply setVoxel_material_only.
  - intros o chunkPos c c' Hmat. unfold storeChunkData.
    apply foldl_ext_all. intros o1 lp. by apply setVoxel_material_only.
Qed.

(** Stone written with health 7 and flag [IS_WET] leaves the octree that
    stone at full health leaves, and is read back at full health without
    flags. *)
Lemma svo_keeps_material_only_witness :
  setVoxel (new 20) (VoxelPos.mk 5 5 5) (Voxel.mk MaterialPalette.STONE 7 2 255)
  = setVoxel (new 20) (VoxelPos.mk 5 5 5) (Voxel.make MaterialPalette.STONE 255) ∧
  getVoxel (setVoxel (new 20) (VoxelPos.mk 5 5 5) (Voxel.mk MaterialPalette.STONE 7 2 255))
           (VoxelPos.mk 5 5 5)
  = Voxel.make MaterialPalette.STONE 255.
Proof.
  destruct svo_keeps_material_only as (_ & Hset & _). split.
  - apply Hset. reflexivity.
  - rewrite (Hset (new 20) (VoxelPos.mk 5 5 5)
               (Voxel.mk MaterialPalette.STONE 7 2 255)
               (Voxel.make MaterialPalette.STONE 255) eq_refl).
    by vm_compute.
Defined.
End claim_svo_voxel.

(** ** Chunk coordinates *)

Section claim_coordinates.
Import VoxelWorldManager.

(** On components that are not negative the chunk coordinate is the floor
    of the division and the local coordinate the remainder. *)
Lemma of_voxel_nonneg (p : VoxelPos.t) :
  0 ≤ VoxelPos.x p < 2147483648 → 0 ≤ VoxelPos.y p < 2147483648 →
  0 ≤ VoxelPos.z p < 2147483648 →
  ChunkPos.of_voxel p WorldChunk.CHUNK_SIZE =
    ChunkPos.mk (VoxelPos.x p `div` WorldChunk.CHUNK_SIZE)
                (VoxelPos.y p `div` WorldChunk.CHUNK_SIZE)
                (VoxelPos.z p `div` WorldChunk.CHUNK_SIZE) ∧
  localPosOf p =
    VoxelPos.mk (VoxelPos.x p `mod` WorldChunk.CHUNK_SIZE)
                (VoxelPos.y p `mod` WorldChunk.CHUNK_SIZE)
                (VoxelPos.z p `mod` WorldChunk.CHUNK_SIZE).
Proof.
  intros Hx Hy Hz. unfold ChunkPos.of_voxel, localPosOf, WorldChunk.CHUNK_SIZE.
  rewrite !Z.quot_div_nonneg, !Z.rem_mod_nonneg by lia.
  split; [| done].
  f_equal; apply wrap32_small; Z.div_mod_to_equations; lia.
Qed.

(** C4, evaluated on the code at the world position (-1, 0, 0).  The floor
    of -1/64 is -1, but the constructor gives chunk (0, 0, 0); the local
    position the manager computes is (-1, 0, 0), which the chunk rejects, so
    a voxel written there through the manager is not read back. *)
Theorem negative_position_not_floor :
  let p := VoxelPos.mk (-1) 0 0 in
  (-1) `div` WorldChunk.CHUNK_SIZE = -1 ∧
  ChunkPos.of_voxel p WorldChunk.CHUNK_SIZE = ChunkPos.mk 0 0 0 ∧
  localPosOf p = VoxelPos.mk (-1) 0 0 ∧
  WorldChunk.isValidLocalPos (localPosOf p) = false ∧
  getVoxel (setVoxel new p (Voxel.make MaterialPalette.STONE 255)) p
    = Voxel.make MaterialPalette.AIR 0.
Proof. by vm_compute. Qed.
End claim_coordinates.

(** ** The loading queue *)

Section claim_queue.
Import VoxelWorldManager.

(** The queue is first in, first out: [loadChunk] appends at the back. *)
Lemma loadChunk_queue_back m pos priority :
  activeChunks m !! pos = None →
  loadingQueue (loadChunk m pos priority) =
    loadingQueue m ++ [ChunkLoadTask.mk pos (nextHandle m) priority].
Proof. intros H. by rewrite loadChunk_absent. Qed.

(** C7, evaluated on the code: a [NORMAL] load of chunk (1,0,0) is queued,
    then an [URGENT] load of chunk (2,0,0).  The queue holds both; the
    worker takes the [NORMAL] task first and leaves the [URGENT] one
    queued. *)
Theorem urgent_load_waits_behind_normal :
  let normal := ChunkLoadTask.mk (ChunkPos.mk 1 0 0) 0%nat ChunkLoadTask.NORMAL in
  let urgent := ChunkLoadTask.mk (ChunkPos.mk 2 0 0) 1%nat ChunkLoadTask.URGENT in
  let m := loadChunk (loadChunk new (ChunkPos.mk 1 0 0) ChunkLoadTask.NORMAL)
                     (ChunkPos.mk 2 0 0) ChunkLoadTask.URGENT in
  loadingQueue m = [normal; urgent] ∧
  head (loadingQueue m) = Some normal ∧
  loadingQueue (chunkLoadingWorker_step m) = [urgent].
Proof.
  intros normal urgent m.
  assert (loadingQueue m = [normal; urgent]) as Hq by (by vm_compute).
  split; [exact Hq |]. split; [by rewrite Hq |].
  by rewrite worker_step_queue, Hq.
Qed.

Lemma loadChunk_keeps_one_load_per_chunk m pos priority :
  one_load_per_chunk m → one_load_per_chunk (loadChunk m pos priority).
Proof.
  intros [Hnodup Hres].
  destruct (activeChunks m !! pos) as [h |] eqn:Hpos.
  { rewrite loadChunk_resident by eauto. by split. }
  rewrite loadChunk_absent by done. unfold one_load_per_chunk.
  cbn [loadingQueue activeChunks]. split.
  - rewrite fmap_app. apply NoDup_app. split; [done |]. split.
    + intros p Hp. simpl. intros ->%list_elem_of_singleton.
      apply list_elem_of_fmap in Hp as (task & Heq & Htask).
      rewrite Forall_forall in Hres. destruct (Hres task Htask) as [h Hh].
      congruence.
    + simpl. apply NoDup_singleton.
  - apply Forall_app. split.
    + eapply Forall_impl; [exact Hres |]. intros task [h Hh]. cbv beta.
      destruct (decide (pos = ChunkLoadTask.position task)) as [E | Hne].
      * congruence.
      * rewrite lookup_insert_ne by done. eauto.
    + apply Forall_singleton. simpl. rewrite lookup_insert_eq. eauto.
Qed.

Lemma queuedLoads_absent m pos :
  one_load_per_chunk m → activeChunks m !! pos = None → queuedLoads m pos = 0%nat.
Proof.
  intros [_ Hres] Hpos. unfold queuedLoads.
  induction (loadingQueue m) as [| task l IH]; [done |].
  apply Forall_cons in Hres as [[h Hh] Hl].
  rewrite filter_cons. destruct (decide (ChunkLoadTask.position task = pos)) as [E | E].
  - subst pos. by rewrite Hpos in Hh.
  - by apply IH.
Qed.

(** C6, evaluated on the code.  For a position not in the active table,
    [loadChunk] constructs an empty chunk, inserts it into the table at once
    (readers get it from [getChunk] before any worker has run) and appends
    exactly one load task for the position to the queue; a [loadChunk] of a
    resident position changes nothing; and while every queued task is for a
    resident position, no two of them for the same one, [loadChunk] keeps it
    so and the position just requested has exactly one task queued.  But the
    chunk inserted is in the state its constructor gives it, [UNLOADED]: the
    state [LOADING] is not set. *)
Theorem loadChunk_inserts_and_enqueues_once
        (m : VoxelWorldManager.t) (pos : ChunkPos.t)
        (priority priority' : ChunkLoadTask.Priority) :
  activeChunks m !! pos = None →
  let m' := loadChunk m pos priority in
  getChunk m' pos = Some (nextHandle m) ∧
  chunkAt m' (nextHandle m) = Some (WorldChunk.new pos) ∧
  WorldChunk.getState (WorldChunk.new pos) = WorldChunk.UNLOADED ∧
  WorldChunk.getState (WorldChunk.new pos) ≠ WorldChunk.LOADING ∧
  (∀ lp, WorldChunk.getVoxel (WorldChunk.new pos) lp = Voxel.make MaterialPalette.AIR 0) ∧
  loadingQueue m' =
    loadingQueue m ++ [ChunkLoadTask.mk pos (nextHandle m) priority] ∧
  queuedLoads m' pos = S (queuedLoads m pos) ∧
  loadChunk m' pos priority' = m' ∧
  (one_load_per_chunk m → one_load_per_chunk m' ∧ queuedLoads m' pos = 1%nat).
Proof.
  intros Hpos m'.
  assert (getChunk m' pos = Some (nextHandle m)) as Hget.
  { unfold m', getChunk. rewrite loadChunk_absent by done. cbn [activeChunks].
    apply lookup_insert_eq. }
  assert (queuedLoads m' pos = S (queuedLoads m pos)) as Hcount.
  { unfold queuedLoads, m'. rewrite loadChunk_queue_back by done.
    rewrite filter_app, length_app, filter_cons. simpl.
    rewrite decide_True by done. simpl. lia. }
  split; [exact Hget |]. split.
  { unfold m', chunkAt. rewrite loadChunk_absent by done. cbn [chunkStore].
    apply lookup_insert_eq. }
  split; [done |]. split; [done |]. split.
  { intros lp. unfold WorldChunk.getVoxel, WorldChunk.new. simpl.
    rewrite lookup_empty. by destruct (WorldChunk.isValidLocalPos lp). }
  split; [by apply loadChunk_queue_back |]. split; [exact Hcount |]. split.
  { apply loadChunk_resident. unfold getChunk in Hget. rewrite Hget. eauto. }
  intros Hinv. split; [by apply loadChunk_keeps_one_load_per_chunk |].
  by rewrite Hcount, queuedLoads_absent.
Qed.

(** On a fresh manager: the chunk at the origin is visible right after the
    request, in state [UNLOADED]; a second request changes nothing and one
    task is queued. *)
Lemma loadChunk_inserts_and_enqueues_once_witness :
  let m' := loadChunk new (ChunkPos.mk 0 0 0) ChunkLoadTask.NORMAL in
  getChunk m' (ChunkPos.mk 0 0 0) = Some 0%nat ∧
  WorldChunk.getState <$> chunkAt m' 0%nat = Some WorldChunk.UNLOADED ∧
  loadChunk m' (ChunkPos.mk 0 0 0) ChunkLoadTask.URGENT = m' ∧
  queuedLoads m' (ChunkPos.mk 0 0 0) = 1%nat.
Proof.
  intros m'.
  assert (one_load_per_chunk new) as Hinv.
  { split; [apply NoDup_nil_2 | apply Forall_nil_2]. }
  destruct (loadChunk_inserts_and_enqueues_once new (ChunkPos.mk 0 0 0)
              ChunkLoadTask.NORMAL ChunkLoadTask.URGENT (lookup_empty _))
    as (Hget & Hchunk & Hstate & _ & _ & _ & _ & Hagain & Hone).
  split; [exact Hget |]. split.
  { change (nextHandle new) with 0%nat in Hchunk. fold m' in Hchunk.
    rewrite Hchunk. cbn [fmap option_fmap option_map]. by f_equal. }
  split; [exact Hagain |]. exact (proj2 (Hone Hinv)).
Defined.

(** The invariant above does not survive an eviction: [unloadChunk] leaves
    the queue alone, so after [loadChunk], [unloadChunk] and [loadChunk] of
    one position with no worker step in between, two tasks for it are
    queued. *)
Lemma reload_before_worker_enqueues_twice :
  let pos := ChunkPos.mk 0 0 0 in
  let m := loadChunk new pos ChunkLoadTask.NORMAL in
  queuedLoads (loadChunk (unloadChunk m pos) pos ChunkLoadTask.NORMAL) pos = 2%nat.
Proof.
  intros pos m. unfold queuedLoads.
  rewrite loadChunk_queue_back by apply unloadChunk_active.
  rewrite unloadChunk_queue.
  assert (loadingQueue m = [ChunkLoadTask.mk pos 0%nat ChunkLoadTask.NORMAL]) as ->
    by (by vm_compute).
  done.
Qed.
End claim_queue.

(** ** Merging uniform children *)

Section merge.
Import SVONode SparseVoxelOctree.

Lemma mergeUniformChildren_unfold n :
  mergeUniformChildren n =
  if isLeaf n then n
  else collapse
         (SVONode.mk (childMask n) (materialID n) (SVONode.level n) (isLeaf n)
            (isUniform n)
            match children n with
            | Some cs => Some (mergeChildren mergeUniformChildren n 0 cs)
            | None => None
            end).
Proof. by destruct n as [mask mat lvl [|] uni ch]. Qed.

Lemma mergeUniformChildren_leaf n : isLeaf n = true → mergeUniformChildren n = n.
Proof. intros H. by rewrite mergeUniformChildren_unfold, H. Qed.

Lemma mergeChildren_lookup f node cs : ∀ i k,
  mergeChildren f node i cs !! k =
  (λ c : option SVONode.t,
     if hasChild node (i + Z.of_nat k) then f <$> c else c) <$> cs !! k.
Proof.
  induction cs as [| c cs IH]; intros i k; [done |].
  destruct k as [| k]; simpl.
  - rewrite Z.add_0_r. by destruct (hasChild node i), c.
  - rewrite IH. by replace (i + 1 + Z.of_nat k) with (i + Z.pos (Pos.of_succ_nat k)) by lia.
Qed.

(** After the recursive pass, each child the mask announces is the merged
    child. *)
Lemma getChild_merged n j :
  0 ≤ j →
  getChild
    (SVONode.mk (childMask n) (materialID n) (SVONode.level n) (isLeaf n)
       (isUniform n)
       match children n with
       | Some cs => Some (mergeChildren mergeUniformChildren n 0 cs)
       | None => None
       end) j
  = mergeUniformChildren <$> getChild n j.
Proof.
  intros Hj. unfold getChild, hasChild, slot. cbn [childMask children].
  fold (hasChild n j). destruct (hasChild n j) eqn:Hhas; cbn [negb]; [| done].
  destruct (children n) as [cs |]; [| done].
  rewrite mergeChildren_lookup, Z.add_0_l, Z2Nat.id, Hhas by done.
  by destruct (cs !! Z.to_nat j) as [[c |] |].
Qed.

Lemma firstChildMaterial_S node i n :
  firstChildMaterial node i (S n) =
  match getChild node i with
  | Some child => materialID child
  | None => firstChildMaterial node (i + 1) n
  end.
Proof. done. Qed.

(** When [canMergeNode] accepts, every child present is a uniform leaf of
    the material the collapse takes. *)
Lemma canMergeNode_loop_true node n : ∀ i firstMaterial firstSet,
  canMergeNode_loop node i n firstMaterial firstSet = true →
  ∀ j c, i ≤ j < i + Z.of_nat n → getChild node j = Some c →
    isLeaf c = true ∧ isUniform c = true ∧
    materialID c = if firstSet then firstMaterial else firstChildMaterial node i n.
Proof.
  induction n as [| n IH]; intros i fm fs Hloop j c Hj Hc; [lia |].
  rewrite firstChildMaterial_S. simpl in Hloop.
  destruct (hasChild node i) eqn:Hhas.
  - destruct (getChild node i) as [child |] eqn:Hchild; [| done].
    destruct (isLeaf child) eqn:Hleaf; [| done].
    destruct (isUniform child) eqn:Huni; [| done]. cbn [negb orb] in Hloop.
    destruct fs; cbn [negb] in Hloop.
    + destruct (Z.eqb_spec (materialID child) fm) as [E | E]; [| done].
      cbn [negb] in Hloop.
      destruct (decide (j = i)) as [-> | Hne].
      * rewrite Hchild in Hc. by simplify_eq.
      * apply (IH (i + 1) fm true Hloop j c); [lia | done].
    + destruct (decide (j = i)) as [-> | Hne].
      * rewrite Hchild in Hc. by simplify_eq.
      * apply (IH (i + 1) (materialID child) true Hloop j c); [lia | done].
  - assert (getChild node i = None) as Hnone.
    { unfold getChild. by rewrite Hhas. }
    rewrite Hnone.
    destruct (decide (j = i)) as [-> | Hne]; [by rewrite Hnone in Hc |].
    apply (IH (i + 1) fm fs Hloop j c); [lia | done].
Qed.

Lemma canMergeNode_true node j c :
  canMergeNode node = true → 0 ≤ j < 8 → getChild node j = Some c →
  isLeaf c = true ∧ isUniform c = true ∧
  materialID c = firstChildMaterial node 0 (Z.to_nat CHILDREN_COUNT).
Proof.
  unfold canMergeNode. intros H Hj Hc.
  destruct (isLeaf node || negb (bool_decide (is_Some (children node)))); [done |].
  apply (canMergeNode_loop_true node _ 0 255 false H j c); [| done].
  unfold CHILDREN_COUNT. lia.
Qed.

(** And it accepts when all children in range are there, uniform leaves of
    one material. *)
Lemma canMergeNode_loop_all node M n : ∀ i firstMaterial firstSet,
  0 ≤ i →
  (∀ j, i ≤ j < i + Z.of_nat n →
        ∃ c, getChild node j = Some c ∧ isLeaf c = true ∧ isUniform c = true ∧
             materialID c = M) →
  (firstSet = true → firstMaterial = M) →
  (firstSet = true ∨ n ≠ O) →
  canMergeNode_loop node i n firstMaterial firstSet = true.
Proof.
  induction n as [| n IH]; intros i fm fs Hi Hall Hfm Hne.
  - simpl. by destruct Hne.
  - simpl. destruct (Hall i) as (c & Hc & Hleaf & Huni & Hmat); [lia |].
    pose proof (getChild_Some _ _ _ Hc) as [Hhas _].
    rewrite Hhas, Hc, Hleaf, Huni. cbn [negb orb].
    destruct fs; cbn [negb].
    + rewrite Hmat, Hfm by done. rewrite Z.eqb_refl. cbn [negb].
      apply IH; [lia | | done | by left]. intros j Hj. apply Hall. lia.
    + apply IH; [lia | | done | by left]. intros j Hj. apply Hall. lia.
Qed.

(** The collapse.  A node whose eight children are all present and are
    uniform leaves of one material [M] is collapsed by
    [mergeUniformChildren] into a single uniform leaf of [M], with no child
    array. *)
Lemma mergeUniformChildren_collapses n M :
  isLeaf n = false →
  (∀ j, 0 ≤ j < 8 →
        ∃ c, getChild n j = Some c ∧ isLeaf c = true ∧ isUniform c = true ∧
             materialID c = M) →
  mergeUniformChildren n = SVONode.mk 0 M (SVONode.level n) true true None.
Proof.
  intros Hleaf Hall. rewrite mergeUniformChildren_unfold, Hleaf.
  set (n1 := SVONode.mk _ _ _ _ _ _).
  assert (∀ j, 0 ≤ j < 8 →
               ∃ c, getChild n1 j = Some c ∧ isLeaf c = true ∧
                    isUniform c = true ∧ materialID c = M) as Hall1.
  { intros j Hj. destruct (Hall j Hj) as (c & Hc & Hl & Hu & Hm).
    exists c. unfold n1. rewrite <- Hleaf. rewrite getChild_merged, Hc by lia.
    simpl. by rewrite mergeUniformChildren_leaf. }
  unfold collapse.
  assert (canMergeNode n1 = true) as ->.
  { unfold canMergeNode. cbn [n1 isLeaf children orb].
    destruct (Hall 0) as (c & Hc & _); [lia |].
    apply getChild_Some in Hc as [_ (cs & -> & _)%slot_Some].
    rewrite bool_decide_eq_true_2 by eauto. cbn [negb].
    apply (canMergeNode_loop_all n1 M); [done | | done | by right].
    intros j Hj. apply Hall1. unfold CHILDREN_COUNT in Hj. lia. }
  destruct (Hall1 0) as (c & Hc & _ & _ & Hm); [lia |].
  unfold CHILDREN_COUNT. change (Z.to_nat 8) with 8%nat.
  rewrite firstChildMaterial_S, Hc, Hm. done.
Qed.

(** The reads.  The pass leaves every read that ends in a uniform
    leaf as it was: the position still reads a uniform leaf of the same
    material. *)
Lemma mergeUniformChildren_lookup L : ∀ level n pos leaf,
  lookupNode L level n pos = Some leaf →
  isLeaf leaf = true → isUniform leaf = true →
  ∃ leaf', lookupNode L level (mergeUniformChildren n) pos = Some leaf' ∧
           isLeaf leaf' = true ∧ isUniform leaf' = true ∧
           materialID leaf' = materialID leaf.
Proof.
  induction L as [| L IH]; intros level n pos leaf Hlook Hleaf Huni.
  - simpl in Hlook. simplify_eq. rewrite mergeUniformChildren_leaf by done.
    by exists leaf.
  - rewrite lookupNode_S in Hlook. destruct (isLeaf n) eqn:Hn.
    { simplify_eq. rewrite mergeUniformChildren_leaf by done.
      exists leaf. by rewrite lookupNode_leaf. }
    pose proof (getChildIndex_range pos level) as Hidx.
    destruct (getChild n (getChildIndex pos level)) as [child |] eqn:Hchild;
      [| done].
    destruct (IH (level - 1) child pos leaf Hlook Hleaf Huni)
      as (leaf' & Hlook' & Hleaf' & Huni' & Hmat').
    rewrite mergeUniformChildren_unfold, Hn. rewrite <- Hn.
    set (n1 := SVONode.mk _ _ _ _ _ _).
    assert (getChild n1 (getChildIndex pos level)
            = Some (mergeUniformChildren child)) as Hchild1.
    { unfold n1. rewrite getChild_merged, Hchild by lia. done. }
    unfold collapse. destruct (canMergeNode n1) eqn:Hmerge.
    + destruct (canMergeNode_true n1 _ _ Hmerge Hidx Hchild1) as (Hl & Hu & Hm).
      rewrite lookupNode_leaf in Hlook' by done. simplify_eq.
      eexists. rewrite lookupNode_leaf by done. split; [done |].
      cbn [isLeaf isUniform materialID]. by rewrite <- Hm.
    + exists leaf'. rewrite lookupNode_S.
      assert (isLeaf n1 = false) as -> by (by rewrite <- Hn).
      by rewrite Hchild1.
Qed.

Lemma coveredByUniformLeaf_lookup o pos :
  coveredByUniformLeaf o pos = true ↔
  ∃ leaf, (root o ≫= λ r, lookupNode (Z.to_nat (maxDepth o)) (maxDepth o) r pos)
          = Some leaf ∧ isLeaf leaf = true ∧ isUniform leaf = true.
Proof.
  unfold coveredByUniformLeaf, findNode, deref.
  destruct o as [[r |] depth size]; simpl; [| by split; [| intros (? & ? & _)]].
  destruct (findNode_loop_read (Z.to_nat depth) depth r pos) as [H1 H2].
  destruct (findNode_loop (Z.to_nat depth) depth r pos false) as [r' p].
  simpl in *. subst r'. rewrite <- H2.
  destruct p as [path |]; simpl; [| by split; [| intros (? & ? & _)]].
  destruct (nodeAt r path) as [node |]; [| by split; [| intros (? & ? & _)]].
  rewrite andb_true_iff. split.
  - intros [? ?]. by exists node.
  - intros (leaf & [= <-] & ? & ?). done.
Qed.

(** At the level of the octree: [optimize] does not change what [getVoxel]
    returns at a position covered by a uniform leaf. *)
Lemma optimize_keeps_covered o pos :
  coveredByUniformLeaf o pos = true →
  getVoxel (optimize o) pos = getVoxel o pos.
Proof.
  intros (leaf & Hlook & Hleaf & Huni)%coveredByUniformLeaf_lookup.
  rewrite !getVoxel_lookup. unfold optimize, compress.
  destruct o as [[r |] depth size]; simpl in *; [| done].
  destruct (mergeUniformChildren_lookup _ _ _ _ _ Hlook Hleaf Huni)
    as (leaf' & -> & Hleaf' & Huni' & Hmat).
  rewrite Hlook. simpl. by rewrite Hleaf, Huni, Hleaf', Huni', Hmat.
Qed.
End merge.

Section claim_merge.
Import SVONode SparseVoxelOctree Merge.

Lemma filled_root :
  root filled =
  Some (SVONode.mk 255 0 2 false true (Some (replicate 8 (Some (stoneLeaf 1))))).
Proof. by vm_compute. Qed.

Lemma filled_reads_stone pos :
  getVoxel filled pos = Voxel.make MaterialPalette.STONE 255.
Proof.
  rewrite getVoxel_lookup, filled_root.
  change (maxDepth filled) with 2. change (Z.to_nat 2) with 2%nat.
  cbn [mbind option_bind]. rewrite lookupNode_S. cbn [isLeaf].
  unfold getChildIndex. change (getNodeSize (2 - 1)) with 2.
  destruct (2 <=? VoxelPos.x pos), (2 <=? VoxelPos.y pos), (2 <=? VoxelPos.z pos);
    reflexivity.
Qed.

(** C5, evaluated on the code.  On the octree whose root has eight uniform
    stone leaves, [optimize] collapses the root into one uniform stone leaf
    and [getVoxel] returns the same voxel at every position; the nodes
    allocated go from 9 to 1; but [getNodeCount] returns 1000 before and
    after, so the node count the octree reports does not decrease. *)
Theorem optimize_reported_node_count_constant :
  root (optimize filled) = Some (stoneLeaf 2) ∧
  (∀ pos, getVoxel (optimize filled) pos = getVoxel filled pos) ∧
  countNodes <$> root filled = Some 9%nat ∧
  countNodes <$> root (optimize filled) = Some 1%nat ∧
  getNodeCount filled = 1000 ∧
  getNodeCount (optimize filled) = 1000 ∧
  ¬ getNodeCount (optimize filled) < getNodeCount filled.
Proof.
  split; [by vm_compute |]. split.
  { intros pos. apply optimize_keeps_covered.
    apply coveredByUniformLeaf_lookup.
    pose proof (filled_reads_stone pos) as H. rewrite getVoxel_lookup in H.
    destruct (root filled ≫= _) as [leaf |]; [| done].
    exists leaf. split; [done |]. unfold voxelOfNode in H.
    destruct (isLeaf leaf), (isUniform leaf); done. }
  split; [by vm_compute |]. split; [by vm_compute |].
  split; [done |]. split; [done |]. unfold getNodeCount. lia.
Qed.
End claim_merge.
